(** * prices_to_stations: the CSV-to-JSON converter [csv_to_json.py]

    A shallow embedding of the three stages of the script
    ([process_stations], [validate_and_geocode_stations] with
    [geocode_address_async], [format_output]) and the properties of the
    specification that concern them.

    The script is written against pandas.  The table operations it calls
    ([Series.apply], [DataFrame.sort_values], [DataFrame.groupby],
    [iloc], [iterrows], [pd.notna]) are embedded with the behaviour their
    documentation gives for the arguments the script passes; every such
    choice is stated where the operation is defined. *)

From Stdlib Require Import ZArith List String Ascii Bool Lia.
From Stdlib Require Import Permutation Sorted DecimalString DecimalZ.
From Stdlib Require Import Floats.PrimFloat.
Import ListNotations.

Set Implicit Arguments.
Set Warnings "-inexact-float".

(* ===================================================================== *)
(** * Python values and exceptions *)
(* ===================================================================== *)

Module Py.

(** The exceptions the embedded code can raise. *)
Inductive exn : Type :=
| ValueError
| IndexError
| KeyError.

(** A computation that returns a value or raises. *)
Inductive result (A : Type) : Type :=
| Ok (a : A)
| Raise (e : exn).

Arguments Ok {A} a.
Arguments Raise {A} e.

Definition bind {A B : Type} (c : result A) (k : A -> result B) : result B :=
  match c with
  | Ok a => k a
  | Raise e => Raise e
  end.

(** A [for] loop whose body may raise, threading the loop state. *)
Fixpoint for_each {S X : Type} (body : S -> X -> result S) (s : S) (xs : list X)
  : result S :=
  match xs with
  | [] => Ok s
  | x :: xs' => bind (body s x) (fun s' => for_each body s' xs')
  end.

(** A Python [float] is an IEEE binary64 number.  The script stores such
    numbers, compares them with [0] and tests their truth value; it does
    no arithmetic on them. *)
Definition eq_zero (x : float) : bool := PrimFloat.eqb x 0%float.

(** [bool(x)] for [x] a float or [None]: [None] and both zeros are false,
    every other float (NaN included) is true. *)
Definition truthy (x : option float) : bool :=
  match x with
  | None => false
  | Some v => negb (eq_zero v)
  end.

(** [x or 0.0]. *)
Definition or_zero (x : option float) : float :=
  if truthy x then match x with Some v => v | None => 0%float end else 0%float.

(** [int(x)] for a table cell that holds an integer or is missing (NaN):
    [int(float('nan'))] raises [ValueError]. *)
Definition int (c : option Z) : result Z :=
  match c with
  | Some z => Ok z
  | None => Raise ValueError
  end.

(** [str(n)] for an integer [n], as an f-string interpolates it. *)
Definition str_int (z : Z) : string := NilEmpty.string_of_int (Z.to_int z).

(** How an f-string interpolates a text cell: the text, or [nan] for a
    missing cell. *)
Definition str_text (c : option string) : string :=
  match c with
  | Some s => s
  | None => "nan"%string
  end.

End Py.

Import Py.

Notation "x <- c ;; k" := (Py.bind c (fun x => k))
  (at level 61, c at next level, right associativity).

(* ===================================================================== *)
(** * Dates: [parse_date] and [format_date] *)
(* ===================================================================== *)

Module Dates.

Local Open Scope Z_scope.

(** A [datetime] to the minute, which is all the format [%d/%m/%Y %H:%M]
    can give. *)
Record datetime : Type := mkdt {
  year : Z; month : Z; day : Z; hour : Z; minute : Z
}.

(** The order of two datetimes is the order of these keys (the fields of a
    parsed date are within their calendar ranges). *)
Definition dt_key (d : datetime) : Z :=
  (((year d * 100 + month d) * 100 + day d) * 100 + hour d) * 100 + minute d.

Definition code (c : ascii) : Z := Z.of_N (N_of_ascii c).

Definition is_digit (c : ascii) : bool := (48 <=? code c) && (code c <=? 57).

Definition in_range (lo hi : Z) (c : ascii) : bool :=
  (48 + lo <=? code c) && (code c <=? 48 + hi).

Definition digit (c : ascii) : Z := code c - 48.

(** What the regular expression class [\s] accepts among ASCII characters. *)
Definition is_space (c : ascii) : bool :=
  ((9 <=? code c) && (code c <=? 13)) || ((28 <=? code c) && (code c <=? 32)).

(** [%d] is [3[0-1]|[1-2]\d|0[1-9]|[1-9]| [1-9]]. *)
Definition field_d (s : string) : option (Z * string) :=
  match s with
  | String a (String b r) =>
      if (Ascii.eqb a "3" && in_range 0 1 b) || (in_range 1 2 a && is_digit b)
         || (Ascii.eqb a "0" && in_range 1 9 b)
      then Some (10 * digit a + digit b, r)
      else if Ascii.eqb a " " && in_range 1 9 b then Some (digit b, r)
      else if in_range 1 9 a then Some (digit a, String b r)
      else None
  | String a r => if in_range 1 9 a then Some (digit a, r) else None
  | EmptyString => None
  end.

(** [%m] is [1[0-2]|0[1-9]|[1-9]]. *)
Definition field_m (s : string) : option (Z * string) :=
  match s with
  | String a (String b r) =>
      if (Ascii.eqb a "1" && in_range 0 2 b) || (Ascii.eqb a "0" && in_range 1 9 b)
      then Some (10 * digit a + digit b, r)
      else if in_range 1 9 a then Some (digit a, String b r)
      else None
  | String a r => if in_range 1 9 a then Some (digit a, r) else None
  | EmptyString => None
  end.

(** [%Y] is [\d\d\d\d]. *)
Definition field_Y (s : string) : option (Z * string) :=
  match s with
  | String a (String b (String c (String d r))) =>
      if is_digit a && is_digit b && is_digit c && is_digit d
      then Some (1000 * digit a + 100 * digit b + 10 * digit c + digit d, r)
      else None
  | _ => None
  end.

(** [%H] is [2[0-3]|[0-1]\d|\d]. *)
Definition field_H (s : string) : option (Z * string) :=
  match s with
  | String a (String b r) =>
      if (Ascii.eqb a "2" && in_range 0 3 b) || (in_range 0 1 a && is_digit b)
      then Some (10 * digit a + digit b, r)
      else if is_digit a then Some (digit a, String b r)
      else None
  | String a r => if is_digit a then Some (digit a, r) else None
  | EmptyString => None
  end.

(** [%M] is [[0-5]\d|\d]. *)
Definition field_M (s : string) : option (Z * string) :=
  match s with
  | String a (String b r) =>
      if in_range 0 5 a && is_digit b then Some (10 * digit a + digit b, r)
      else if is_digit a then Some (digit a, String b r)
      else None
  | String a r => if is_digit a then Some (digit a, r) else None
  | EmptyString => None
  end.

(** A literal character of the format. *)
Definition lit (c : ascii) (s : string) : option string :=
  match s with
  | String a r => if Ascii.eqb a c then Some r else None
  | EmptyString => None
  end.

(** The blank of the format stands for [\s+]: one or more spaces. *)
Fixpoint skip_spaces (s : string) : string :=
  match s with
  | String a r => if is_space a then skip_spaces r else s
  | EmptyString => s
  end.

Definition spaces1 (s : string) : option string :=
  match s with
  | String a r => if is_space a then Some (skip_spaces r) else None
  | EmptyString => None
  end.

Definition is_leap (y : Z) : bool :=
  ((y mod 4 =? 0) && negb (y mod 100 =? 0)) || (y mod 400 =? 0).

Definition days_in_month (y m : Z) : Z :=
  if m =? 2 then (if is_leap y then 29 else 28)
  else if (m =? 4) || (m =? 6) || (m =? 9) || (m =? 11) then 30
  else 31.

(** [datetime.strptime(s, "%d/%m/%Y %H:%M")] on ASCII text: [None] stands
    for the [ValueError] it raises (no match, text left over, or a day
    the month does not have, or year 0). *)
Definition strptime (s : string) : option datetime :=
  match field_d s with
  | Some (d, s1) =>
    match lit "/" s1 with
    | Some s2 =>
      match field_m s2 with
      | Some (m, s3) =>
        match lit "/" s3 with
        | Some s4 =>
          match field_Y s4 with
          | Some (y, s5) =>
            match spaces1 s5 with
            | Some s6 =>
              match field_H s6 with
              | Some (h, s7) =>
                match lit ":" s7 with
                | Some s8 =>
                  match field_M s8 with
                  | Some (mi, EmptyString) =>
                      if (1 <=? y) && (d <=? days_in_month y m)
                      then Some (mkdt y m d h mi)
                      else None
                  | _ => None
                  end
                | None => None
                end
              | None => None
              end
            | None => None
            end
          | None => None
          end
        | None => None
        end
      | None => None
      end
    | None => None
    end
  | None => None
  end.

(** [parse_date]: the [try] turns every exception into [None]; a missing
    cell is a float, on which [strptime] raises [TypeError]. *)
Definition parse_date (date_str : option string) : option datetime :=
  match date_str with
  | Some s => strptime s
  | None => None
  end.

Definition digit_char (z : Z) : ascii := ascii_of_N (Z.to_N (48 + z mod 10)).

Definition pad2 (z : Z) : string :=
  String (digit_char (z / 10)) (String (digit_char z) EmptyString).

Definition pad4 (z : Z) : string :=
  String (digit_char (z / 1000)) (String (digit_char (z / 100)) (pad2 z)).

(** [dt.strftime("%Y-%m-%dT%H:%M:%SZ")]; the seconds are always zero. *)
Definition strftime (d : datetime) : string :=
  (pad4 (year d) ++ "-" ++ pad2 (month d) ++ "-" ++ pad2 (day d) ++ "T"
   ++ pad2 (hour d) ++ ":" ++ pad2 (minute d) ++ ":00Z")%string.

(** A value of the column [fecha_vigencia_dt] as a row hands it out.
    When the column is held as [datetime64] a parsed date is a
    [Timestamp] and a missing one is [NaT]; when it is held as Python
    objects a missing one is [None]. *)
Inductive dtcell : Type :=
| Stamp (d : datetime)
| NaT
| PyNone.

(** [format_date]: [dt.strftime(...) if dt else None].  [NaT] is a true
    value, and [NaT.strftime] raises [ValueError]. *)
Definition format_date (dt : dtcell) : result (option string) :=
  match dt with
  | Stamp d => Ok (Some (strftime d))
  | NaT => Raise ValueError
  | PyNone => Ok None
  end.

(** The parsed date behind a cell, if any. *)
Definition stamp_of (dt : dtcell) : option datetime :=
  match dt with
  | Stamp d => Some d
  | _ => None
  end.

(** The range of a nanosecond [Timestamp], to the minute:
    1677-09-21 00:13 to 2262-04-11 23:47. *)
Definition in_ns_bounds (d : datetime) : bool :=
  (dt_key (mkdt 1677 9 21 0 13) <=? dt_key d)
  && (dt_key d <=? dt_key (mkdt 2262 4 11 23 47)).

End Dates.

Import Dates.

(* ===================================================================== *)
(** * The price table *)
(* ===================================================================== *)

Module Table.

(** A numeric cell as [pd.notna] and [float] see it: missing (NaN), a
    number, or a text that [float] does not accept (one such text makes
    the reader keep the column as text). *)
Inductive numcell : Type :=
| NumNaN
| Num (x : float)
| Text (s : string).

Definition notna (c : numcell) : bool :=
  match c with
  | NumNaN => false
  | _ => true
  end.

(** [float(c)] on a cell that is not missing. *)
Definition to_float (c : numcell) : result float :=
  match c with
  | Num x => Ok x
  | _ => Raise ValueError
  end.

(** [float(c) if pd.notna(c) else None]. *)
Definition float_or_none (c : numcell) : result (option float) :=
  if notna c then x <- to_float c ;; Ok (Some x) else Ok None.

(** One row of [precios-historicos.csv], by column.  [None] is a missing
    cell (NaN); identifiers are integers. *)
Record Row : Type := mkRow {
  idempresa : option Z;
  empresa : option string;
  direccion : option string;
  localidad : option string;
  provincia : option string;
  empresabandera : option string;
  idempresabandera : option Z;
  latitud : numcell;
  longitud : numcell;
  idproducto : option Z;
  producto : option string;
  precio : numcell;
  fecha_vigencia : option string;
  tipohorario : option string;
  idtipohorario : option Z
}.

(** A row of the table once the column [fecha_vigencia_dt] is added. *)
Record DRow : Type := mkDRow {
  row : Row;
  fecha_vigencia_dt : dtcell
}.

Definition is_some {A : Type} (o : option A) : bool :=
  match o with
  | Some _ => true
  | None => false
  end.

(** [df["fecha_vigencia"].apply(parse_date)].  The new column is held as
    [datetime64[ns]] when some date parsed and every parsed date fits a
    nanosecond timestamp (its missing values are then [NaT]); otherwise
    it stays a column of Python objects (its missing values are [None]). *)
Definition held_as_datetime64 (col : list (option datetime)) : bool :=
  existsb is_some col
  && forallb (fun o => match o with Some d => in_ns_bounds d | None => true end) col.

Definition box (dt64 : bool) (o : option datetime) : dtcell :=
  match o with
  | Some d => Stamp d
  | None => if dt64 then NaT else PyNone
  end.

Definition add_fecha_vigencia_dt (df : list Row) : list DRow :=
  let col := map (fun r => parse_date (fecha_vigencia r)) df in
  let dt64 := held_as_datetime64 col in
  map (fun r => mkDRow r (box dt64 (parse_date (fecha_vigencia r)))) df.

Definition date_of (r : DRow) : option datetime := stamp_of (fecha_vigencia_dt r).

Definition has_date (r : DRow) : bool := is_some (date_of r).

Definition key_of (r : DRow) : Z :=
  match date_of r with
  | Some d => dt_key d
  | None => 0%Z
  end.

(** [df.sort_values("fecha_vigencia_dt", ascending=False)] puts the rows
    that have a date by decreasing date, then (na_position is "last") the
    rows without one.  Its default algorithm, quicksort, promises nothing
    about rows of equal date, so the Aggregator below takes the sort as a
    parameter, and the properties are proved for every sort that orders the
    table in this way.  [sort_values_stable] is the one that keeps rows of
    equal date, and the rows without a date, in their original order. *)
Fixpoint insert_desc (x : DRow) (l : list DRow) : list DRow :=
  match l with
  | [] => [x]
  | y :: l' => if (key_of y <=? key_of x)%Z then x :: l else y :: insert_desc x l'
  end.

Definition sort_desc (l : list DRow) : list DRow := fold_right insert_desc [] l.

Definition sort_values_stable (df : list DRow) : list DRow :=
  sort_desc (filter has_date df) ++ filter (fun r => negb (has_date r)) df.

(** ** [groupby] *)

Section GroupBy.

Variable K : Type.
Variable cmp : K -> K -> comparison.

(** The distinct keys in increasing order. *)
Fixpoint insert_key (k : K) (l : list K) : list K :=
  match l with
  | [] => [k]
  | x :: l' =>
      match cmp k x with
      | Lt => k :: l
      | Eq => l
      | Gt => x :: insert_key k l'
      end
  end.

Definition sorted_keys (ks : list K) : list K := fold_right insert_key [] ks.

Definition has_key (k : K) (o : option K) : bool :=
  match o with
  | Some k' => match cmp k k' with Eq => true | _ => false end
  | None => false
  end.

Fixpoint present (os : list (option K)) : list K :=
  match os with
  | [] => []
  | Some k :: os' => k :: present os'
  | None :: os' => present os'
  end.

(** [df.groupby(by)] with its defaults [sort=True] and [dropna=True]:
    the groups come in increasing key order, a row whose key is missing
    belongs to no group, and the rows of a group keep the order they have
    in [df]. *)
Definition groupby (by_ : DRow -> option K) (df : list DRow) : list (K * list DRow) :=
  map (fun k => (k, filter (fun r => has_key k (by_ r)) df))
      (sorted_keys (present (map by_ df))).

End GroupBy.

(** The key [["idproducto", "producto"]]: missing if either part is. *)
Definition product_by (r : DRow) : option (Z * string) :=
  match idproducto (row r), producto (row r) with
  | Some i, Some n => Some (i, n)
  | _, _ => None
  end.

Definition station_by (r : DRow) : option Z := idempresa (row r).

(** Pairs of keys are ordered by the first key, then by the second; texts
    are ordered character by character. *)
Definition cmp_product (a b : Z * string) : comparison :=
  match Z.compare (fst a) (fst b) with
  | Eq => String.compare (snd a) (snd b)
  | c => c
  end.

(** [group.iloc[0]]. *)
Definition iloc0 (g : list DRow) : result DRow :=
  match g with
  | r :: _ => Ok r
  | [] => Raise IndexError
  end.

End Table.

Import Table.

(* ===================================================================== *)
(** * Python dictionaries *)
(* ===================================================================== *)

(** A [dict] keeps its keys in insertion order; assigning to a key that is
    already there keeps the key's place. *)
Module Dict.

Section Dict.

Variables K V : Type.
Variable eqb : K -> K -> bool.

Definition dict : Type := list (K * V).

Fixpoint get (k : K) (d : dict) : option V :=
  match d with
  | [] => None
  | (k', v) :: d' => if eqb k k' then Some v else get k d'
  end.

Fixpoint set (k : K) (v : V) (d : dict) : dict :=
  match d with
  | [] => [(k, v)]
  | (k', v') :: d' => if eqb k k' then (k', v) :: d' else (k', v') :: set k v d'
  end.

Definition mem (k : K) (d : dict) : bool :=
  match get k d with
  | Some _ => true
  | None => false
  end.

Definition keys (d : dict) : list K := map fst d.

Definition values (d : dict) : list V := map snd d.

End Dict.

End Dict.

(* ===================================================================== *)
(** * The Aggregator: [process_stations] *)
(* ===================================================================== *)

Record PricePoint : Type := mkPricePoint {
  price : option float;
  date : option string;
  hourType : option string;
  hourTypeId : Z
}.

Record Product : Type := mkProduct {
  productId : Z;
  productName : string;
  prices : list PricePoint
}.

Record Coordinates : Type := mkCoordinates {
  lat : option float;
  lng : option float
}.

Record Station : Type := mkStation {
  stationId : Z;
  stationName : option string;
  address : option string;
  town : option string;
  province : option string;
  flag : option string;
  flagId : Z;
  coordinates : Coordinates;
  products : Dict.dict string Product
}.

Definition Stations : Type := Dict.dict Z Station.

Definition with_products (s : Station) (ps : Dict.dict string Product) : Station :=
  mkStation (stationId s) (stationName s) (address s) (town s) (province s)
            (flag s) (flagId s) (coordinates s) ps.

Definition with_coordinates (s : Station) (c : Coordinates) : Station :=
  mkStation (stationId s) (stationName s) (address s) (town s) (province s)
            (flag s) (flagId s) c (products s).

Definition append_price (p : Product) (e : PricePoint) : Product :=
  mkProduct (productId p) (productName p) (prices p ++ [e]).

(** The dictionary built at lines 132-141. *)
Definition price_entry (price_row : DRow) : result PricePoint :=
  p <- float_or_none (precio (row price_row)) ;;
  d <- format_date (fecha_vigencia_dt price_row) ;;
  h <- Py.int (idtipohorario (row price_row)) ;;
  Ok (mkPricePoint p d (tipohorario (row price_row)) h).

(** [f"{product_id}_{product_name}"]. *)
Definition product_key (product_id : Z) (product_name : string) : string :=
  (str_int product_id ++ "_" ++ product_name)%string.

(** Line 142: [station["products"][product_key]["prices"].append(price_entry)]. *)
Definition add_price (key : string) (ps : Dict.dict string Product) (price_row : DRow)
  : result (Dict.dict string Product) :=
  e <- price_entry price_row ;;
  match Dict.get String.eqb key ps with
  | Some p => Ok (Dict.set String.eqb key (append_price p e) ps)
  | None => Raise KeyError
  end.

(** The body of the loop over product groups, lines 121-142. *)
Definition process_product (ps : Dict.dict string Product)
    (g : (Z * string) * list DRow) : result (Dict.dict string Product) :=
  let '((product_id, product_name), product_group) := g in
  let key := product_key product_id product_name in
  let ps1 :=
    if Dict.mem String.eqb key ps then ps
    else Dict.set String.eqb key (mkProduct product_id product_name []) ps in
  for_each (add_price key) ps1 product_group.

(** The station literal of lines 91-112, seeded from [first_row]. *)
Definition new_station (station_id : Z) (first_row : DRow) : result Station :=
  fid <- Py.int (idempresabandera (row first_row)) ;;
  la <- float_or_none (latitud (row first_row)) ;;
  lo <- float_or_none (longitud (row first_row)) ;;
  Ok (mkStation station_id
                (empresa (row first_row)) (direccion (row first_row))
                (localidad (row first_row)) (provincia (row first_row))
                (empresabandera (row first_row)) fid
                (mkCoordinates la lo) []).

(** The body of the loop over station groups, lines 86-142.  [station] is
    the object stored under [station_id]; what the inner loops do to it is
    what the dictionary holds afterwards. *)
Definition process_station (stations : Stations) (g : Z * list DRow) : result Stations :=
  let '(station_id, station_group) := g in
  first_row <- iloc0 station_group ;;
  station <- match Dict.get Z.eqb station_id stations with
             | None => new_station station_id first_row
             | Some s => Ok s
             end ;;
  ps <- for_each process_product (products station)
                 (groupby cmp_product product_by station_group) ;;
  Ok (Dict.set Z.eqb station_id (with_products station ps) stations).

Section Aggregator.

(** What [df.sort_values("fecha_vigencia_dt", ascending=False)] computes. *)
Variable sort_values : list DRow -> list DRow.

(** The table as the loop sees it: the date column added, then sorted
    (lines 76-77). *)
Definition sorted_table (df : list Row) : list DRow :=
  sort_values (add_fecha_vigencia_dt df).

Definition process_stations (df : list Row) : result Stations :=
  for_each process_station [] (groupby Z.compare station_by (sorted_table df)).

End Aggregator.

(** The number of price points of the result, over all products of all
    stations. *)
Definition count_prices (stations : Stations) : nat :=
  list_sum (map (fun s => list_sum (map (fun p => List.length (prices p))
                                        (Dict.values (products s))))
                (Dict.values stations)).

(* ===================================================================== *)
(** * The Resolver: [geocode_address_async], [validate_and_geocode_stations] *)
(* ===================================================================== *)

Module Geo.

(** What [geocode_address_async] may be handed as [address]. *)
Inductive pyaddr : Type :=
| AddrNone
| AddrNaN
| AddrStr (s : string).

(** [not address]. *)
Definition falsy (a : pyaddr) : bool :=
  match a with
  | AddrNone => true
  | AddrNaN => false
  | AddrStr s => String.eqb s ""
  end.

(** [pd.isna(address)]. *)
Definition isna (a : pyaddr) : bool :=
  match a with
  | AddrStr _ => false
  | _ => true
  end.

(** The outcome of one GET: the request raised (timeout, connection
    error, a body that is not the expected JSON), or a document with its
    [status] and the locations of its [results]. *)
Inductive response : Type :=
| Failed
| Json (status : option string) (results : list (float * float)).

(** The session answers a request for an address. *)
Definition session : Type := string -> response.

(** [GEOCODING_ENABLED = bool(os.getenv("API_KEY"))]. *)
Definition GEOCODING_ENABLED (api_key : option string) : bool :=
  match api_key with
  | Some k => negb (String.eqb k "")
  | None => false
  end.

(** [geocode_address_async]: the pair it returns and the requests it
    sent. *)
Definition geocode_address_async (enabled : bool) (sess : session) (addr : pyaddr)
  : (option float * option float) * list string :=
  if negb enabled || falsy addr || isna addr then ((None, None), [])
  else
    match addr with
    | AddrStr s =>
        match sess s with
        | Json (Some st) ((la, lo) :: _) =>
            if String.eqb st "OK" then ((Some la, Some lo), [s])
            else ((None, None), [s])
        | _ => ((None, None), [s])
        end
    | _ => ((None, None), [])
    end.

(** The test of lines 169-174. *)
Definition needs_geocoding (c : Coordinates) : bool :=
  match lat c, lng c with
  | None, _ => true
  | Some _, None => true
  | Some la, Some lo => eq_zero la || eq_zero lo
  end.

Definition stations_to_geocode (stations : Stations) : list (Z * Station) :=
  filter (fun kv => needs_geocoding (coordinates (snd kv))) stations.

(** The query of lines 186-188. *)
Definition query (station : Station) : string :=
  (str_text (address station) ++ ", " ++ str_text (town station) ++ ", "
   ++ str_text (province station) ++ ", Argentina")%string.

(** The two assignments of lines 192-193, on the station object that the
    mapping holds under [station_id]. *)
Definition set_coordinates (station_id : Z) (la lo : option float)
    (stations : Stations) : Stations :=
  match Dict.get Z.eqb station_id stations with
  | Some s => Dict.set Z.eqb station_id (with_coordinates s (mkCoordinates la lo)) stations
  | None => stations
  end.

(** One task, [geocode_and_update], from the moment it holds the
    semaphore: the lookup, then the update.  The state is the mapping and
    the requests sent so far; [world station_id] is the session as it
    answers this task. *)
Definition geocode_and_update (enabled : bool) (world : Z -> session)
    (st : Stations * list string) (task : Z * Station) : Stations * list string :=
  let '(station_id, station) := task in
  let '((la, lo), sent) :=
    geocode_address_async enabled (world station_id) (AddrStr (query station)) in
  if truthy la && truthy lo
  then (set_coordinates station_id la lo (fst st), (snd st ++ sent)%list)
  else (fst st, (snd st ++ sent)%list).

(** The tasks run to completion in some order; each update is atomic. *)
Definition run_tasks (enabled : bool) (world : Z -> session) (stations : Stations)
    (tasks : list (Z * Station)) : Stations * list string :=
  fold_left (geocode_and_update enabled world) tasks (stations, []).

(** [validate_and_geocode_stations]: the mapping it returns and the
    requests sent. *)
Definition validate_and_geocode_stations (enabled : bool) (world : Z -> session)
    (stations : Stations) : Stations * list string :=
  if negb enabled then (stations, [])
  else
    match stations_to_geocode stations with
    | [] => (stations, [])
    | tasks => run_tasks enabled world stations tasks
    end.

End Geo.

(* ===================================================================== *)
(** * The Formatter: [format_output] *)
(* ===================================================================== *)

Module Out.

Record Geometry : Type := mkGeometry {
  type : string;
  coordinates : list float
}.

Record Entry : Type := mkEntry {
  stationId : Z;
  stationName : option string;
  address : option string;
  town : option string;
  province : option string;
  flag : option string;
  flagId : Z;
  geometry : Geometry;
  products : list Product
}.

End Out.

(** The entry built at lines 225-244. *)
Definition station_entry (station : Station) : Out.Entry :=
  let products_list := Dict.values (products station) in
  Out.mkEntry (stationId station) (stationName station) (address station)
              (town station) (province station) (flag station) (flagId station)
              (Out.mkGeometry "Point"
                 [or_zero (lng (coordinates station));
                  or_zero (lat (coordinates station))])
              products_list.

Definition format_output (stations : Stations) : list Out.Entry :=
  fold_left (fun output kv => output ++ [station_entry (snd kv)]) stations [].

(** Lines 263-277 of [main]: aggregate, resolve when enabled, format. *)
Definition main (sort_values : list DRow -> list DRow)
    (api_key : option string) (world : Z -> Geo.session) (df : list Row)
  : result (list Out.Entry * list string) :=
  stations <- process_stations sort_values df ;;
  let r := if Geo.GEOCODING_ENABLED api_key
           then Geo.validate_and_geocode_stations
                  (Geo.GEOCODING_ENABLED api_key) world stations
           else (stations, []) in
  Ok (format_output (fst r), snd r).

(* ===================================================================== *)
(** * Definitions used to state the properties *)
(* ===================================================================== *)

(** A list comprehension whose expression may raise. *)
Fixpoint mapM {X Y : Type} (f : X -> result Y) (xs : list X) : result (list Y) :=
  match xs with
  | [] => Ok []
  | x :: xs' => y <- f x ;; ys <- mapM f xs' ;; Ok (y :: ys)
  end.

(** What the loop body of lines 121-142 leaves under a product key that
    was not there before. *)
Definition product_of_group (g : (Z * string) * list DRow) : result (string * Product) :=
  es <- mapM price_entry (snd g) ;;
  Ok (product_key (fst (fst g)) (snd (fst g)),
      mkProduct (fst (fst g)) (snd (fst g)) es).

(** What the loop body of lines 86-142 leaves under a station id that was
    not there before. *)
Definition station_of_group (g : Z * list DRow) : result (Z * Station) :=
  first_row <- iloc0 (snd g) ;;
  s <- new_station (fst g) first_row ;;
  ps <- mapM product_of_group (groupby cmp_product product_by (snd g)) ;;
  Ok (fst g, with_products s ps).

(** The price points of the result with the station and the product they
    are filed under. *)
Definition filed_prices (stations : Stations) : list (Z * (Z * string) * PricePoint) :=
  flat_map (fun s =>
    flat_map (fun p => map (fun e => (stationId s, (productId p, productName p), e))
                           (prices p))
             (Dict.values (products s)))
    (Dict.values stations).

(** A row has the keys the two groupings go by. *)
Definition keyed (r : DRow) : bool := is_some (station_by r) && is_some (product_by r).

Definition keyed_row (r : Row) : bool :=
  is_some (idempresa r) && is_some (idproducto r) && is_some (producto r).

(** The first row of a table that belongs to a station. *)
Definition first_of_station (station_id : Z) (df : list DRow) : option DRow :=
  find (fun r => has_key Z.compare station_id (station_by r)) df.

(** [a] is at least as recent as [b]; a missing date is older than any date. *)
Definition at_least_as_recent (a b : option datetime) : Prop :=
  match a, b with
  | Some x, Some y => (dt_key y <= dt_key x)%Z
  | _, None => True
  | None, Some _ => False
  end.

Definition newer_first (r1 r2 : DRow) : Prop :=
  at_least_as_recent (date_of r1) (date_of r2).

(** What the properties need of the sort: it permutes the table, and it
    leaves the rows by non-increasing date with the undated rows last. *)
Definition sorts_newest_first (sort_values : list DRow -> list DRow) : Prop :=
  (forall df, Permutation (sort_values df) df)
  /\ (forall df, StronglySorted newer_first (sort_values df)).

Definition key_lt {K : Type} (cmp : K -> K -> comparison) (a b : K) : Prop :=
  cmp a b = Lt.

Definition key_ge (a b : DRow) : Prop := (key_of b <= key_of a)%Z.

(** The text holds the character. *)
Fixpoint contains (c : ascii) (s : string) : bool :=
  match s with
  | EmptyString => false
  | String a s' => Ascii.eqb a c || contains c s'
  end.

Definition station_groups (sort_values : list DRow -> list DRow) (df : list Row)
  : list (Z * list DRow) :=
  groupby Z.compare station_by (sorted_table sort_values df).

Definition product_groups (station_group : list DRow) : list ((Z * string) * list DRow) :=
  groupby cmp_product product_by station_group.

(** A price point is filed for a row: under the row's station and product,
    and it is the entry the row gives. *)
Definition filed (r : DRow) (pt : Z * (Z * string) * PricePoint) : Prop :=
  station_by r = Some (fst (fst pt)) /\ product_by r = Some (snd (fst pt))
  /\ price_entry r = Ok (snd pt).

Definition tag (s : Station) (p : Product) (e : PricePoint)
  : Z * (Z * string) * PricePoint :=
  (stationId s, (productId p, productName p), e).

(** A row on which no conversion of the Aggregator raises: the flag id
    and the hour type id are there, no numeric cell is a text, and the
    date parses. *)
Definition not_text (c : numcell) : bool :=
  match c with
  | Text _ => false
  | _ => true
  end.

Definition clean_row (r : Row) : bool :=
  is_some (idempresabandera r) && is_some (idtipohorario r)
  && not_text (latitud r) && not_text (longitud r) && not_text (precio r)
  && is_some (parse_date (fecha_vigencia r)).


(** What the lookup for a station returns, and the station as the task
    leaves it. *)
Definition lookup (world : Z -> Geo.session) (task : Z * Station)
  : option float * option float :=
  fst (Geo.geocode_address_async true (world (fst task))
         (Geo.AddrStr (Geo.query (snd task)))).

Definition resolved (world : Z -> Geo.session) (kv : Z * Station) : Z * Station :=
  if truthy (fst (lookup world kv)) && truthy (snd (lookup world kv))
  then (fst kv, with_coordinates (snd kv)
                  (mkCoordinates (fst (lookup world kv)) (snd (lookup world kv))))
  else kv.

(** The mapping once the tasks of the stations with the given ids ran. *)
Definition resolve_ids (world : Z -> Geo.session) (ids : list Z) (stations : Stations)
  : Stations :=
  map (fun kv => if existsb (Z.eqb (fst kv)) ids then resolved world kv else kv) stations.

(* ===================================================================== *)
(** * Sample tables *)
(* ===================================================================== *)

Module Sample.

Local Open Scope string_scope.
Local Open Scope Z_scope.

(** A row of a station on Av. Rivadavia; the arguments are the cells that
    vary between the samples. *)
Definition obs (station_id : option Z) (la lo : numcell) (product_name : option string)
    (price_cell : numcell) (date_cell : option string) : Row :=
  mkRow station_id (Some "ESTACION CENTRO") (Some "Av. Rivadavia 100")
        (Some "CABA") (Some "BUENOS AIRES") (Some "YPF") (Some 2)
        la lo (Some 3) product_name price_cell date_cell (Some "Diurno") (Some 2).

Definition here_lat : numcell := Num (-34.5)%float.
Definition here_lng : numcell := Num (-58.4)%float.

(** Two observations of one product of one station, the older one first. *)
Definition two_dates : list Row :=
  [ obs (Some 7) here_lat here_lng (Some "Nafta") (Num 100%float) (Some "01/06/2023 10:00");
    obs (Some 7) here_lat here_lng (Some "Nafta") (Num 110%float) (Some "02/06/2023 09:00") ].

(** A row whose product name cell is empty. *)
Definition no_product_name : list Row :=
  [ obs (Some 7) here_lat here_lng None (Num 100%float) (Some "01/06/2023 10:00") ].


Definition text_price_row : Row :=
  obs (Some 7) here_lat here_lng (Some "Nafta") (Text "abc") (Some "01/06/2023 10:00").

Definition text_price : list Row := [text_price_row].

(** Station 2 has the most recent observation, station 1 an older one. *)
Definition two_stations : list Row :=
  [ obs (Some 2) here_lat here_lng (Some "Nafta") (Num 110%float) (Some "02/06/2023 09:00");
    obs (Some 1) here_lat here_lng (Some "Nafta") (Num 100%float) (Some "01/06/2023 10:00") ].

(** A date that does not parse next to one that does, and next to one
    beyond the range of a nanosecond timestamp. *)
Definition bad_date_mixed : list Row :=
  [ obs (Some 7) here_lat here_lng (Some "Nafta") (Num 100%float) (Some "01/06/2023 10:00");
    obs (Some 7) here_lat here_lng (Some "Nafta") (Num 110%float) (Some "sin fecha") ].

Definition bad_date_far : list Row :=
  [ obs (Some 7) here_lat here_lng (Some "Nafta") (Num 110%float) (Some "sin fecha");
    obs (Some 7) here_lat here_lng (Some "Nafta") (Num 100%float) (Some "01/06/3023 10:00") ].

(** A station at latitude 0, and one without coordinates. *)
Definition zero_lat : list Row :=
  [ obs (Some 7) (Num 0%float) here_lng (Some "Nafta") (Num 100%float)
        (Some "01/06/2023 10:00") ].

Definition no_coordinates : list Row :=
  [ obs (Some 7) NumNaN NumNaN (Some "Nafta") (Num 100%float) (Some "01/06/2023 10:00") ].

(** A service that fails every request, one that answers every request
    with a point on the equator, and one that answers with a point in
    Buenos Aires. *)
Definition failing : Z -> Geo.session := fun _ _ => Geo.Failed.

Definition equator : Z -> Geo.session :=
  fun _ _ => Geo.Json (Some "OK") [(0%float, (-58.4)%float)].

Definition obelisco : Z -> Geo.session :=
  fun _ _ => Geo.Json (Some "OK") [((-34.6)%float, (-58.4)%float)].

End Sample.

(** The result of the Aggregator on a table on which it returns. *)
Definition stations_of (df : list Row) : Stations :=
  match process_stations sort_values_stable df with
  | Ok stations => stations
  | Raise _ => []
  end.

(** The station ids of a table in the order in which they first occur. *)
Fixpoint first_seen (ids : list Z) : list Z :=
  match ids with
  | [] => []
  | i :: ids' => i :: filter (fun j => negb (Z.eqb j i)) (first_seen ids')
  end.

Definition first_seen_stations (df : list DRow) : list Z :=
  first_seen (present (map station_by df)).

(* ===================================================================== *)
(** * Definitions used to state further properties of the code *)
(* ===================================================================== *)

(** The fields of a datetime are within their calendar ranges. *)
Definition calendar (d : datetime) : Prop :=
  (1 <= year d <= 9999)%Z /\ (1 <= month d <= 12)%Z
  /\ (1 <= day d <= days_in_month (year d) (month d))%Z
  /\ (0 <= hour d <= 23)%Z /\ (0 <= minute d <= 59)%Z.

(** A datetime written in the format the docstring of [parse_date] names,
    DD/MM/YYYY HH:MM, every field zero-padded. *)
Definition written (d : datetime) : string :=
  (pad2 (day d) ++ "/" ++ pad2 (month d) ++ "/" ++ pad4 (year d) ++ " "
   ++ pad2 (hour d) ++ ":" ++ pad2 (minute d))%string.

(** The order of the [date] texts of two price points: the first is not
    before the second as texts compare; a null date is after any text. *)
Definition date_text_not_before (a b : option string) : Prop :=
  match a, b with
  | Some x, Some y => String.compare y x <> Gt
  | _, None => True
  | None, Some _ => False
  end.

(** A station as a pass of the Resolver with geocoding enabled leaves it. *)
Definition after_pass (world : Z -> Geo.session) (kv : Z * Station) : Z * Station :=
  if Geo.needs_geocoding (coordinates (snd kv)) then resolved world kv else kv.

(** The number of price points of the formatted list. *)
Definition count_output_prices (output : list Out.Entry) : nat :=
  list_sum (map (fun e => list_sum (map (fun p => List.length (prices p))
                                        (Out.products e)))
                output).

(* ===================================================================== *)
(** * The embedding on small inputs *)
(* ===================================================================== *)

Example parse_date_0106 :
  parse_date (Some "01/06/2023 10:00"%string) = Some (mkdt 2023 6 1 10 0).
Proof. reflexivity. Qed.

Example parse_date_unpadded :
  parse_date (Some "2/6/2023  9:05"%string) = Some (mkdt 2023 6 2 9 5).
Proof. reflexivity. Qed.

Example parse_date_feb30 : parse_date (Some "30/02/2023 10:00"%string) = None.
Proof. reflexivity. Qed.

Example parse_date_trailing : parse_date (Some "01/06/2023 10:00:00"%string) = None.
Proof. reflexivity. Qed.

Example format_date_0206 :
  format_date (Stamp (mkdt 2023 6 2 9 0)) = Ok (Some "2023-06-02T09:00:00Z"%string).
Proof. reflexivity. Qed.

(** A date that does not parse, next to one that does: the column is held
    as [datetime64], the missing date is [NaT], and [format_date] raises. *)
Example unparsed_date_in_a_datetime64_column :
  map fecha_vigencia_dt (add_fecha_vigencia_dt Sample.bad_date_mixed)
  = [Stamp (mkdt 2023 6 1 10 0); NaT]
  /\ process_stations sort_values_stable Sample.bad_date_mixed = Raise ValueError.
Proof. split; vm_compute; reflexivity. Qed.

(** Next to a date beyond the range of a nanosecond timestamp the column
    stays a column of objects, the missing date is [None], and its row
    comes last with a null date. *)
Example unparsed_date_in_an_object_column :
  map fecha_vigencia_dt (add_fecha_vigencia_dt Sample.bad_date_far)
  = [PyNone; Stamp (mkdt 3023 6 1 10 0)]
  /\ map (fun p => map date (prices p))
         (flat_map (fun s => Dict.values (products s))
                   (Dict.values (stations_of Sample.bad_date_far)))
     = [[Some "3023-06-01T10:00:00Z"%string; None]].
Proof. split; vm_compute; reflexivity. Qed.

(** A row without a station id belongs to no station group. *)
Example row_without_station_id :
  process_stations sort_values_stable
    [Sample.obs None Sample.here_lat Sample.here_lng (Some "Nafta"%string)
                (Num 100%float) (Some "01/06/2023 10:00"%string)]
  = Ok [].
Proof. vm_compute. reflexivity. Qed.

(* ===================================================================== *)
(** * Facts about the error monad and dictionaries *)
(* ===================================================================== *)

Lemma bind_Ok_inv {A B : Type} (c : result A) (k : A -> result B) (b : B) :
  Py.bind c k = Ok b -> exists a, c = Ok a /\ k a = Ok b.
Proof.
  destruct c as [a|e]; simpl; intros H; [eauto | discriminate].
Qed.

Ltac inv_bind H :=
  let a := fresh "a" in
  let Ha := fresh "Ha" in
  apply bind_Ok_inv in H; destruct H as (a & Ha & H).

Lemma mapM_Ok_Forall2 {X Y : Type} (f : X -> result Y) (xs : list X) (ys : list Y) :
  mapM f xs = Ok ys <-> Forall2 (fun x y => f x = Ok y) xs ys.
Proof.
  revert ys. induction xs as [|x xs IH]; intros ys; simpl.
  - split; intros H; [injection H as <-; constructor | inversion H; reflexivity].
  - split; intros H.
    + inv_bind H. inv_bind H. injection H as <-.
      constructor; [assumption | now apply IH].
    + inversion H as [|? y ? ys' Hy Hys]; subst.
      rewrite Hy. simpl. apply IH in Hys. rewrite Hys. reflexivity.
Qed.

Lemma mapM_length {X Y : Type} (f : X -> result Y) (xs : list X) (ys : list Y) :
  mapM f xs = Ok ys -> List.length ys = List.length xs.
Proof.
  intros H. apply mapM_Ok_Forall2 in H. symmetry. eapply Forall2_length; eauto.
Qed.

Section DictFacts.

Variables K V : Type.
Variable eqb : K -> K -> bool.
Hypothesis eqb_eq : forall a b, eqb a b = true <-> a = b.

Lemma eqb_refl_true (k : K) : eqb k k = true.
Proof. now apply eqb_eq. Qed.

Lemma get_None_not_key (k : K) (d : Dict.dict K V) :
  Dict.get eqb k d = None <-> ~ In k (Dict.keys d).
Proof.
  induction d as [|[k' v] d IH]; simpl.
  - tauto.
  - destruct (eqb k k') eqn:E.
    + apply eqb_eq in E. subst. split; [discriminate | intros H; exfalso; auto].
    + assert (k <> k') by (intros ->; rewrite eqb_refl_true in E; discriminate).
      rewrite IH. split; intros H1; [intros [H2|H2]; [congruence | auto] | auto].
Qed.

Lemma set_fresh (k : K) (v : V) (d : Dict.dict K V) :
  Dict.get eqb k d = None -> Dict.set eqb k v d = d ++ [(k, v)].
Proof.
  induction d as [|[k' v'] d IH]; simpl; [reflexivity |].
  destruct (eqb k k'); [discriminate |].
  intros H. now rewrite IH.
Qed.

Lemma get_set_same (k : K) (v : V) (d : Dict.dict K V) :
  Dict.get eqb k (Dict.set eqb k v d) = Some v.
Proof.
  induction d as [|[k' v'] d IH]; simpl.
  - now rewrite eqb_refl_true.
  - destruct (eqb k k') eqn:E; simpl; rewrite E; [reflexivity | assumption].
Qed.

Lemma set_set (k : K) (v1 v2 : V) (d : Dict.dict K V) :
  Dict.set eqb k v2 (Dict.set eqb k v1 d) = Dict.set eqb k v2 d.
Proof.
  induction d as [|[k' v'] d IH]; simpl.
  - now rewrite eqb_refl_true.
  - destruct (eqb k k') eqn:E; simpl; rewrite E; [reflexivity | now rewrite IH].
Qed.

Lemma set_get_id (k : K) (v : V) (d : Dict.dict K V) :
  Dict.get eqb k d = Some v -> Dict.set eqb k v d = d.
Proof.
  induction d as [|[k' v'] d IH]; simpl; [discriminate |].
  destruct (eqb k k'); intros H; [now injection H as -> | now rewrite IH].
Qed.

Lemma set_keys_present (k : K) (v v' : V) (d : Dict.dict K V) :
  Dict.get eqb k d = Some v' -> Dict.keys (Dict.set eqb k v d) = Dict.keys d.
Proof.
  induction d as [|[k1 v1] d IH]; simpl; [discriminate |].
  destruct (eqb k k1); simpl; intros H; [reflexivity | now rewrite IH].
Qed.

End DictFacts.

(* ===================================================================== *)
(** * The loops of [process_stations] compute their closed forms *)
(* ===================================================================== *)

Lemma add_price_loop (key : string) (group : list DRow) :
  forall (ps : Dict.dict string Product) (p : Product),
    Dict.get String.eqb key ps = Some p ->
    for_each (add_price key) ps group =
    (es <- mapM price_entry group ;;
     Ok (Dict.set String.eqb key
           (mkProduct (productId p) (productName p) (prices p ++ es)) ps)).
Proof.
  induction group as [|r group IH]; intros ps p Hget; simpl.
  - rewrite app_nil_r. destruct p; simpl.
    now rewrite (set_get_id String.eqb _ _ Hget).
  - unfold add_price at 1. destruct (price_entry r) as [e|x]; simpl; [|reflexivity].
    rewrite Hget. simpl.
    rewrite (IH _ (append_price p e)) by apply (get_set_same String.eqb String.eqb_eq).
    destruct (mapM price_entry group) as [es|x]; simpl; [|reflexivity].
    rewrite (set_set String.eqb String.eqb_eq). now rewrite <- app_assoc.
Qed.

Lemma process_product_fresh (ps : Dict.dict string Product)
    (g : (Z * string) * list DRow) :
  ~ In (product_key (fst (fst g)) (snd (fst g))) (Dict.keys ps) ->
  process_product ps g = (kp <- product_of_group g ;; Ok (ps ++ [kp])).
Proof.
  destruct g as [[pid pn] group]. simpl. intros Hfresh.
  apply (get_None_not_key (V:=Product) String.eqb String.eqb_eq) in Hfresh.
  unfold Dict.mem. rewrite Hfresh.
  rewrite add_price_loop with (p := mkProduct pid pn [])
    by apply (get_set_same String.eqb String.eqb_eq).
  unfold product_of_group. simpl.
  destruct (mapM price_entry group) as [es|x]; simpl; [|reflexivity].
  rewrite (set_set String.eqb String.eqb_eq), (set_fresh String.eqb _ _ _ Hfresh). reflexivity.
Qed.

(* ===================================================================== *)
(** * Facts about [groupby] *)
(* ===================================================================== *)

Section GroupByFacts.

Variable K : Type.
Variable cmp : K -> K -> comparison.
Hypothesis cmp_eq : forall a b, cmp a b = Eq -> a = b.
Hypothesis cmp_refl : forall a, cmp a a = Eq.
Hypothesis cmp_antisym : forall a b, cmp a b = CompOpp (cmp b a).
Hypothesis cmp_trans : forall a b c, cmp a b = Lt -> cmp b c = Lt -> cmp a c = Lt.

Lemma has_key_true (k : K) (o : option K) : has_key cmp k o = true <-> o = Some k.
Proof.
  destruct o as [k'|]; simpl; [|split; discriminate].
  destruct (cmp k k') eqn:E.
  - apply cmp_eq in E. subst. tauto.
  - split; [discriminate | intros [= ->]; rewrite cmp_refl in E; discriminate].
  - split; [discriminate | intros [= ->]; rewrite cmp_refl in E; discriminate].
Qed.

Lemma present_In (k : K) (os : list (option K)) : In k (present os) <-> In (Some k) os.
Proof.
  induction os as [|[k'|] os IH]; simpl.
  - tauto.
  - rewrite IH. split; intros [H|H]; auto; left; congruence.
  - rewrite IH. split; [auto | intros [H|H]; [discriminate | auto]].
Qed.

Lemma insert_key_In (k x : K) (l : list K) :
  In x (insert_key cmp k l) <-> x = k \/ In x l.
Proof.
  induction l as [|y l IH]; simpl.
  - intuition.
  - destruct (cmp k y) eqn:E; simpl.
    + apply cmp_eq in E. subst. intuition.
    + intuition.
    + rewrite IH. intuition.
Qed.

Lemma sorted_keys_In (x : K) (ks : list K) : In x (sorted_keys cmp ks) <-> In x ks.
Proof.
  induction ks as [|k ks IH]; simpl; [tauto |].
  rewrite insert_key_In, IH. intuition.
Qed.

Lemma insert_key_sorted (k : K) (l : list K) :
  StronglySorted (key_lt cmp) l -> StronglySorted (key_lt cmp) (insert_key cmp k l).
Proof.
  induction 1 as [|y l Hl IH Hy]; simpl.
  - repeat constructor.
  - destruct (cmp k y) eqn:E.
    + constructor; assumption.
    + constructor; [constructor; assumption |].
      constructor; [exact E |].
      rewrite Forall_forall in *. intros z Hz. eapply cmp_trans; [exact E | now apply Hy].
    + constructor; [assumption |].
      rewrite Forall_forall in *. intros z Hz.
      apply insert_key_In in Hz. destruct Hz as [->|Hz]; [|now apply Hy].
      unfold key_lt. rewrite cmp_antisym, E. reflexivity.
Qed.

Lemma sorted_keys_sorted (ks : list K) : StronglySorted (key_lt cmp) (sorted_keys cmp ks).
Proof.
  induction ks as [|k ks IH]; simpl; [constructor | now apply insert_key_sorted].
Qed.

Lemma key_sorted_NoDup (l : list K) : StronglySorted (key_lt cmp) l -> NoDup l.
Proof.
  induction 1 as [|y l Hl IH Hy]; constructor; [|assumption].
  intros Hin. rewrite Forall_forall in Hy. specialize (Hy _ Hin).
  unfold key_lt in Hy. rewrite cmp_refl in Hy. discriminate.
Qed.

Lemma sorted_keys_NoDup (ks : list K) : NoDup (sorted_keys cmp ks).
Proof. apply key_sorted_NoDup, sorted_keys_sorted. Qed.

Variable by_ : DRow -> option K.

Lemma groupby_keys (df : list DRow) :
  map fst (groupby cmp by_ df) = sorted_keys cmp (present (map by_ df)).
Proof.
  unfold groupby. rewrite map_map. simpl. apply map_id.
Qed.

Lemma groupby_In (df : list DRow) (k : K) (g : list DRow) :
  In (k, g) (groupby cmp by_ df) ->
  g = filter (fun r => has_key cmp k (by_ r)) df /\ In (Some k) (map by_ df).
Proof.
  unfold groupby. rewrite in_map_iff. intros (k' & [= <- <-] & Hk).
  split; [reflexivity |]. now apply present_In, sorted_keys_In.
Qed.

(** The rows of a group are the rows of the table with the group's key. *)
Lemma groupby_rows (df : list DRow) (k : K) (g : list DRow) (r : DRow) :
  In (k, g) (groupby cmp by_ df) -> (In r g <-> In r df /\ by_ r = Some k).
Proof.
  intros H. apply groupby_In in H. destruct H as [-> _].
  rewrite filter_In, has_key_true. tauto.
Qed.

(** No group is empty. *)
Lemma groupby_nonempty (df : list DRow) (k : K) (g : list DRow) :
  In (k, g) (groupby cmp by_ df) -> g <> [].
Proof.
  intros H. pose proof (groupby_In _ _ _ H) as [_ Hk].
  apply in_map_iff in Hk. destruct Hk as (r & Hr & Hin).
  assert (In r g) by (eapply groupby_rows; eauto).
  intros ->. contradiction.
Qed.

Lemma filter_either (A B : DRow -> bool) (l : list DRow) :
  (forall r, A r = true -> B r = true -> False) ->
  Permutation (filter A l ++ filter B l) (filter (fun r => A r || B r) l).
Proof.
  intros Hdisj. induction l as [|r l IH]; simpl; [constructor |].
  destruct (A r) eqn:Ea, (B r) eqn:Eb; simpl.
  - exfalso. eauto.
  - now constructor.
  - rewrite <- Permutation_middle. now constructor.
  - assumption.
Qed.

Lemma groups_of_keys (df : list DRow) (ks : list K) :
  NoDup ks ->
  Permutation (flat_map (fun k => filter (fun r => has_key cmp k (by_ r)) df) ks)
              (filter (fun r => existsb (fun k => has_key cmp k (by_ r)) ks) df).
Proof.
  induction 1 as [|k ks Hk Hnd IH]; simpl.
  - induction df; simpl; auto.
  - rewrite IH. apply filter_either.
    intros r Ha Hb. apply has_key_true in Ha.
    apply existsb_exists in Hb. destruct Hb as (k' & Hk' & Hb).
    apply has_key_true in Hb. rewrite Ha in Hb. injection Hb as <-. contradiction.
Qed.

(** The groups partition the rows that have a key. *)
Lemma groupby_partition (df : list DRow) :
  Permutation (flat_map snd (groupby cmp by_ df))
              (filter (fun r => is_some (by_ r)) df).
Proof.
  unfold groupby. rewrite flat_map_concat_map, map_map. simpl.
  rewrite <- flat_map_concat_map.
  rewrite groups_of_keys by apply sorted_keys_NoDup.
  erewrite filter_ext_in; [reflexivity |].
  intros r Hr. cbv beta. destruct (by_ r) as [k|] eqn:E.
  - apply existsb_exists. exists k. split.
    + apply sorted_keys_In, present_In, in_map_iff. eauto.
    + now apply has_key_true.
  - induction (sorted_keys cmp (present (map by_ df))); simpl; auto.
Qed.

End GroupByFacts.

(* ===================================================================== *)
(** * The two key orders, and the product key *)
(* ===================================================================== *)

Lemma Z_compare_trans (a b c : Z) :
  Z.compare a b = Lt -> Z.compare b c = Lt -> Z.compare a c = Lt.
Proof. rewrite !Z.compare_lt_iff. lia. Qed.

Lemma ascii_compare_refl (a : ascii) : Ascii.compare a a = Eq.
Proof. unfold Ascii.compare. apply N.compare_refl. Qed.

Lemma ascii_compare_trans (a b c : ascii) :
  Ascii.compare a b = Lt -> Ascii.compare b c = Lt -> Ascii.compare a c = Lt.
Proof. unfold Ascii.compare. rewrite !N.compare_lt_iff. lia. Qed.

Lemma string_compare_refl (s : string) : String.compare s s = Eq.
Proof.
  induction s as [|a s IH]; simpl; [reflexivity |].
  now rewrite ascii_compare_refl.
Qed.

Lemma string_compare_trans (s1 : string) :
  forall s2 s3, String.compare s1 s2 = Lt -> String.compare s2 s3 = Lt ->
                String.compare s1 s3 = Lt.
Proof.
  induction s1 as [|a s1 IH]; intros [|b s2] [|c s3]; simpl; try discriminate; auto.
  destruct (Ascii.compare a b) eqn:Eab; try discriminate;
    destruct (Ascii.compare b c) eqn:Ebc; try discriminate; intros H1 H2.
  - apply Ascii.compare_eq_iff in Eab, Ebc. subst.
    rewrite ascii_compare_refl. eauto.
  - apply Ascii.compare_eq_iff in Eab. subst. now rewrite Ebc.
  - apply Ascii.compare_eq_iff in Ebc. subst. now rewrite Eab.
  - now rewrite (ascii_compare_trans _ _ _ Eab Ebc).
Qed.

Lemma cmp_product_eq (a b : Z * string) : cmp_product a b = Eq -> a = b.
Proof.
  destruct a as [i n], b as [j m]. unfold cmp_product. simpl.
  destruct (Z.compare i j) eqn:E; try discriminate.
  intros H. apply Z.compare_eq in E. apply String.compare_eq_iff in H. congruence.
Qed.

Lemma cmp_product_refl (a : Z * string) : cmp_product a a = Eq.
Proof.
  unfold cmp_product. rewrite Z.compare_refl. apply string_compare_refl.
Qed.

Lemma cmp_product_antisym (a b : Z * string) :
  cmp_product a b = CompOpp (cmp_product b a).
Proof.
  unfold cmp_product. rewrite (Z.compare_antisym (fst a) (fst b)).
  destruct (Z.compare (fst a) (fst b)); simpl; auto using String.compare_antisym.
Qed.

Lemma cmp_product_trans (a b c : Z * string) :
  cmp_product a b = Lt -> cmp_product b c = Lt -> cmp_product a c = Lt.
Proof.
  destruct a as [i n], b as [j m], c as [k o]. unfold cmp_product. simpl.
  destruct (Z.compare i j) eqn:Eij; try discriminate;
    destruct (Z.compare j k) eqn:Ejk; try discriminate; intros H1 H2.
  - apply Z.compare_eq in Eij, Ejk. subst. rewrite Z.compare_refl.
    eapply string_compare_trans; eauto.
  - apply Z.compare_eq in Eij. subst. now rewrite Ejk.
  - apply Z.compare_eq in Ejk. subst. now rewrite Eij.
  - now rewrite (Z_compare_trans _ _ _ Eij Ejk).
Qed.

Lemma uint_no_underscore (d : Decimal.uint) :
  contains "_" (NilEmpty.string_of_uint d) = false.
Proof. induction d; simpl; auto. Qed.

Lemma str_int_no_underscore (z : Z) : contains "_" (str_int z) = false.
Proof.
  unfold str_int. destruct (Z.to_int z); simpl; apply uint_no_underscore.
Qed.

Lemma str_int_inj (a b : Z) : str_int a = str_int b -> a = b.
Proof.
  unfold str_int. intros H.
  apply (f_equal NilEmpty.int_of_string) in H.
  rewrite !NilEmpty.isi in H. injection H as H.
  apply (f_equal Z.of_int) in H. now rewrite !DecimalZ.of_to in H.
Qed.

Lemma split_at_underscore (a : string) :
  forall b x y,
    contains "_" a = false -> contains "_" b = false ->
    (a ++ "_" ++ x = b ++ "_" ++ y)%string -> a = b /\ x = y.
Proof.
  induction a as [|c a IH]; intros [|d b] x y Ha Hb H; simpl in *.
  - injection H as ->. auto.
  - injection H as <- _. simpl in Hb. discriminate.
  - injection H as -> _. simpl in Ha. discriminate.
  - injection H as -> H. apply orb_false_elim in Ha, Hb.
    destruct (IH b x y) as [-> ->]; tauto.
Qed.

Lemma product_key_inj (i j : Z) (n m : string) :
  product_key i n = product_key j m -> i = j /\ n = m.
Proof.
  unfold product_key. intros H.
  apply split_at_underscore in H; auto using str_int_no_underscore.
  destruct H as [H ->]. split; [now apply str_int_inj | reflexivity].
Qed.

(* ===================================================================== *)
(** * The loops of [process_stations] never meet a key twice *)
(* ===================================================================== *)

Lemma product_of_group_key (g : (Z * string) * list DRow) (kp : string * Product) :
  product_of_group g = Ok kp ->
  fst kp = product_key (fst (fst g)) (snd (fst g))
  /\ productId (snd kp) = fst (fst g) /\ productName (snd kp) = snd (fst g)
  /\ mapM price_entry (snd g) = Ok (prices (snd kp)).
Proof.
  unfold product_of_group. intros H. inv_bind H. injection H as <-. simpl. auto.
Qed.

Lemma product_loop (groups : list ((Z * string) * list DRow)) :
  forall ps : Dict.dict string Product,
    NoDup (map fst groups) ->
    (forall g, In g groups ->
               ~ In (product_key (fst (fst g)) (snd (fst g))) (Dict.keys ps)) ->
    for_each process_product ps groups =
    (l <- mapM product_of_group groups ;; Ok (ps ++ l)).
Proof.
  induction groups as [|g groups IH]; intros ps Hnd Hfresh; simpl.
  - now rewrite app_nil_r.
  - rewrite process_product_fresh by (apply Hfresh; now left).
    destruct (product_of_group g) as [kp|x] eqn:Eg; simpl; [|reflexivity].
    inversion Hnd as [|? ? Hg Hnd']; subst.
    rewrite IH; [| assumption |].
    + destruct (mapM product_of_group groups); simpl; [|reflexivity].
      now rewrite <- app_assoc.
    + intros g' Hg'. unfold Dict.keys. rewrite map_app, in_app_iff. simpl.
      intros [H | [H | []]]; [eapply Hfresh; [right|]; eauto |].
      apply product_of_group_key in Eg. destruct Eg as (Ek & _).
      rewrite Ek in H. apply product_key_inj in H.
      apply Hg. replace (fst g) with (fst g'); [now apply in_map |].
      destruct (fst g), (fst g'). simpl in H. destruct H. congruence.
Qed.

Lemma process_station_fresh (stations : Stations) (g : Z * list DRow) :
  ~ In (fst g) (Dict.keys stations) ->
  process_station stations g = (ks <- station_of_group g ;; Ok (stations ++ [ks])).
Proof.
  destruct g as [sid group]. simpl. intros Hfresh.
  apply (get_None_not_key (V:=Station) Z.eqb Z.eqb_eq) in Hfresh.
  unfold process_station, station_of_group. simpl.
  destruct (iloc0 group) as [first_row|x]; simpl; [|reflexivity].
  rewrite Hfresh.
  destruct (new_station sid first_row) as [s|x] eqn:Es; simpl; [|reflexivity].
  assert (Hps : products s = []).
  { unfold new_station in Es. inv_bind Es. inv_bind Es. inv_bind Es.
    now injection Es as <-. }
  rewrite product_loop.
  - rewrite Hps. simpl.
    destruct (mapM product_of_group _); simpl; [|reflexivity].
    now rewrite (set_fresh Z.eqb _ _ _ Hfresh).
  - rewrite groupby_keys. apply sorted_keys_NoDup.
    + apply cmp_product_eq.
    + apply cmp_product_refl.
    + apply cmp_product_antisym.
    + apply cmp_product_trans.
  - rewrite Hps. simpl. auto.
Qed.

Lemma station_of_group_key (g : Z * list DRow) (ks : Z * Station) :
  station_of_group g = Ok ks -> fst ks = fst g.
Proof.
  unfold station_of_group. intros H. inv_bind H. inv_bind H. inv_bind H.
  now injection H as <-.
Qed.

Lemma station_loop (groups : list (Z * list DRow)) :
  forall stations : Stations,
    NoDup (map fst groups) ->
    (forall g, In g groups -> ~ In (fst g) (Dict.keys stations)) ->
    for_each process_station stations groups =
    (l <- mapM station_of_group groups ;; Ok (stations ++ l)).
Proof.
  induction groups as [|g groups IH]; intros stations Hnd Hfresh; simpl.
  - now rewrite app_nil_r.
  - rewrite process_station_fresh by (apply Hfresh; now left).
    destruct (station_of_group g) as [ks|x] eqn:Eg; simpl; [|reflexivity].
    inversion Hnd as [|? ? Hg Hnd']; subst.
    rewrite IH; [| assumption |].
    + destruct (mapM station_of_group groups); simpl; [|reflexivity].
      now rewrite <- app_assoc.
    + intros g' Hg'. unfold Dict.keys. rewrite map_app, in_app_iff. simpl.
      intros [H | [H | []]]; [eapply Hfresh; [right|]; eauto |].
      apply station_of_group_key in Eg. rewrite Eg in H.
      apply Hg. rewrite H. now apply in_map.
Qed.

(* ===================================================================== *)
(** * Facts about sorted lists and [sort_values_stable] *)
(* ===================================================================== *)

Lemma insert_desc_perm (x : DRow) (l : list DRow) :
  Permutation (insert_desc x l) (x :: l).
Proof.
  induction l as [|y l IH]; simpl; [reflexivity |].
  destruct (key_of y <=? key_of x)%Z; [reflexivity |].
  rewrite IH. apply perm_swap.
Qed.

Lemma sort_desc_perm (l : list DRow) : Permutation (sort_desc l) l.
Proof.
  induction l as [|x l IH]; simpl; [constructor |].
  rewrite insert_desc_perm. now constructor.
Qed.

Lemma filter_split_perm {A : Type} (f : A -> bool) (l : list A) :
  Permutation (filter f l ++ filter (fun x => negb (f x)) l) l.
Proof.
  induction l as [|x l IH]; simpl; [constructor |].
  destruct (f x); simpl; [now constructor |].
  rewrite <- Permutation_middle. now constructor.
Qed.

Lemma sort_values_stable_perm (df : list DRow) : Permutation (sort_values_stable df) df.
Proof.
  unfold sort_values_stable. rewrite sort_desc_perm. apply filter_split_perm.
Qed.

Lemma insert_desc_sorted (x : DRow) (l : list DRow) :
  StronglySorted key_ge l -> StronglySorted key_ge (insert_desc x l).
Proof.
  induction 1 as [|y l Hl IH Hy]; simpl.
  - repeat constructor.
  - destruct (key_of y <=? key_of x)%Z eqn:E.
    + apply Z.leb_le in E. constructor; [now constructor |].
      constructor; [exact E |].
      rewrite Forall_forall in *. intros z Hz. specialize (Hy z Hz).
      unfold key_ge in *. lia.
    + apply Z.leb_gt in E. constructor; [assumption |].
      rewrite Forall_forall in *. intros z Hz.
      apply (Permutation_in _ (insert_desc_perm x l)) in Hz.
      destruct Hz as [<-|Hz]; [unfold key_ge; lia | now apply Hy].
Qed.

Lemma sort_desc_sorted (l : list DRow) : StronglySorted key_ge (sort_desc l).
Proof.
  induction l as [|x l IH]; simpl; [constructor | now apply insert_desc_sorted].
Qed.

Lemma StronglySorted_app {A : Type} (R : A -> A -> Prop) (l1 l2 : list A) :
  StronglySorted R l1 -> StronglySorted R l2 ->
  (forall a b, In a l1 -> In b l2 -> R a b) ->
  StronglySorted R (l1 ++ l2).
Proof.
  induction 1 as [|x l1 Hl IH Hx]; intros H2 Hcross; simpl; [assumption |].
  constructor.
  - apply IH; [assumption |]. intros a b Ha Hb. apply Hcross; [now right | assumption].
  - apply Forall_app. split; [assumption |].
    apply Forall_forall. intros b Hb. apply Hcross; [now left | assumption].
Qed.

Lemma StronglySorted_weaken {A : Type} (R S : A -> A -> Prop) (l : list A) :
  (forall a b, In a l -> In b l -> R a b -> S a b) ->
  StronglySorted R l -> StronglySorted S l.
Proof.
  intros Himp H. induction H as [|x l Hl IH Hx]; constructor.
  - apply IH. intros a b Ha Hb. apply Himp; now right.
  - rewrite Forall_forall in *. intros b Hb.
    apply Himp; [now left | now right | now apply Hx].
Qed.

Lemma StronglySorted_filter {A : Type} (R : A -> A -> Prop) (f : A -> bool) (l : list A) :
  StronglySorted R l -> StronglySorted R (filter f l).
Proof.
  induction 1 as [|x l Hl IH Hx]; simpl; [constructor |].
  destruct (f x); [|assumption].
  constructor; [assumption |].
  rewrite Forall_forall in *. intros y Hy. apply filter_In in Hy. now apply Hx.
Qed.

Lemma all_undated_sorted (l : list DRow) :
  Forall (fun r => has_date r = false) l -> StronglySorted newer_first l.
Proof.
  induction 1 as [|x l Hx Hl IH]; constructor; [assumption |].
  rewrite Forall_forall in *. intros y Hy. specialize (Hl y Hy).
  unfold newer_first, at_least_as_recent, has_date in *.
  destruct (date_of x), (date_of y); simpl in *; (discriminate || exact I).
Qed.

(** The sorted table has the dated rows by non-increasing date, then the
    undated ones. *)
Lemma sort_values_stable_sorted (df : list DRow) :
  StronglySorted newer_first (sort_values_stable df).
Proof.
  unfold sort_values_stable. apply StronglySorted_app.
  - apply StronglySorted_weaken with (R := key_ge); [|apply sort_desc_sorted].
    intros a b Ha Hb Hab.
    apply (Permutation_in _ (sort_desc_perm _)), filter_In in Ha, Hb.
    destruct Ha as [_ Ha], Hb as [_ Hb].
    unfold newer_first, at_least_as_recent, key_ge, key_of, has_date in *.
    destruct (date_of a), (date_of b); simpl in *; (discriminate || assumption).
  - apply all_undated_sorted, Forall_forall. intros r Hr.
    apply filter_In in Hr. destruct Hr as [_ Hr]. now apply negb_true_iff.
  - intros a b _ Hb. apply filter_In in Hb. destruct Hb as [_ Hb].
    apply negb_true_iff in Hb.
    unfold newer_first, at_least_as_recent, has_date in *.
    destruct (date_of a), (date_of b); simpl in *; (discriminate || exact I).
Qed.



Lemma filter_head_find {A : Type} (f : A -> bool) (l : list A) (x : A) (t : list A) :
  filter f l = x :: t -> find f l = Some x.
Proof.
  induction l as [|y l IH]; simpl; [discriminate |].
  destruct (f y); [now intros [= ->] | assumption].
Qed.

(** The stable sort is such a sort. *)
Lemma sort_values_stable_ok : sorts_newest_first sort_values_stable.
Proof. split; [exact sort_values_stable_perm | exact sort_values_stable_sorted]. Qed.

(* ===================================================================== *)
(** * List facts used below *)
(* ===================================================================== *)

Lemma Forall2_In_r {A B : Type} (R : A -> B -> Prop) (l1 : list A) (l2 : list B) (b : B) :
  Forall2 R l1 l2 -> In b l2 -> exists a, In a l1 /\ R a b.
Proof.
  induction 1 as [|x y l1 l2 Hxy H IH]; simpl; [tauto |].
  intros [<-|Hb]; [eauto |]. destruct (IH Hb) as (a & Ha & HR). eauto.
Qed.

Lemma Forall2_In_l {A B : Type} (R : A -> B -> Prop) (l1 : list A) (l2 : list B) (a : A) :
  Forall2 R l1 l2 -> In a l1 -> exists b, In b l2 /\ R a b.
Proof.
  induction 1 as [|x y l1 l2 Hxy H IH]; simpl; [tauto |].
  intros [<-|Ha]; [eauto |]. destruct (IH Ha) as (b & Hb & HR). eauto.
Qed.

Lemma Forall2_impl_In {A B : Type} (R S : A -> B -> Prop) (l1 : list A) (l2 : list B) :
  (forall a b, In a l1 -> R a b -> S a b) -> Forall2 R l1 l2 -> Forall2 S l1 l2.
Proof.
  intros Himp H. induction H as [|x y l1 l2 Hxy H IH]; constructor.
  - apply Himp; [now left | assumption].
  - apply IH. intros a b Ha. apply Himp. now right.
Qed.

Lemma Forall2_map_r {A B C : Type} (R : A -> C -> Prop) (h : B -> C)
    (l1 : list A) (l2 : list B) :
  Forall2 (fun a b => R a (h b)) l1 l2 -> Forall2 R l1 (map h l2).
Proof. induction 1; simpl; constructor; assumption. Qed.

Lemma Forall2_flat_map {A B C D : Type} (R : C -> D -> Prop)
    (f : A -> list C) (g : B -> list D) (la : list A) (lb : list B) :
  Forall2 (fun a b => Forall2 R (f a) (g b)) la lb ->
  Forall2 R (flat_map f la) (flat_map g lb).
Proof.
  induction 1; simpl; [constructor | now apply Forall2_app].
Qed.

Lemma Permutation_flat_map_ext {A B : Type} (f g : A -> list B) (l : list A) :
  (forall a, In a l -> Permutation (f a) (g a)) ->
  Permutation (flat_map f l) (flat_map g l).
Proof.
  induction l as [|a l IH]; simpl; intros H; [constructor |].
  apply Permutation_app; [apply H; now left | apply IH; intros; apply H; now right].
Qed.

Lemma filter_flat_map {A B : Type} (p : B -> bool) (f : A -> list B) (l : list A) :
  filter p (flat_map f l) = flat_map (fun a => filter p (f a)) l.
Proof.
  induction l as [|a l IH]; simpl; [reflexivity |].
  now rewrite filter_app, IH.
Qed.

Lemma Permutation_filter {A : Type} (f : A -> bool) (l l' : list A) :
  Permutation l l' -> Permutation (filter f l) (filter f l').
Proof.
  induction 1 as [|x l l' H IH|x y l|l l' l'' H1 IH1 H2 IH2]; simpl.
  - constructor.
  - destruct (f x); [now constructor | assumption].
  - destruct (f x), (f y); try reflexivity. apply perm_swap.
  - now transitivity (filter f l').
Qed.

Lemma filter_filter_andb {A : Type} (f g : A -> bool) (l : list A) :
  filter f (filter g l) = filter (fun x => g x && f x) l.
Proof.
  induction l as [|x l IH]; simpl; [reflexivity |].
  destruct (g x); simpl; [destruct (f x); now rewrite IH | assumption].
Qed.

Lemma flat_map_map {A B C : Type} (f : B -> list C) (g : A -> B) (l : list A) :
  flat_map f (map g l) = flat_map (fun a => f (g a)) l.
Proof.
  induction l as [|a l IH]; simpl; [reflexivity | now rewrite IH].
Qed.

(* ===================================================================== *)
(** * Facts about prices, stations and the formatted list *)
(* ===================================================================== *)

Lemma new_station_inv (station_id : Z) (first_row : DRow) (s : Station) :
  new_station station_id first_row = Ok s ->
  stationId s = station_id
  /\ stationName s = empresa (row first_row)
  /\ address s = direccion (row first_row)
  /\ town s = localidad (row first_row)
  /\ province s = provincia (row first_row)
  /\ flag s = empresabandera (row first_row)
  /\ idempresabandera (row first_row) = Some (flagId s)
  /\ float_or_none (latitud (row first_row)) = Ok (lat (coordinates s))
  /\ float_or_none (longitud (row first_row)) = Ok (lng (coordinates s))
  /\ products s = [].
Proof.
  unfold new_station. intros H.
  destruct (idempresabandera (row first_row)) as [fid|]; simpl in H; [|discriminate].
  destruct (float_or_none (latitud (row first_row))) as [la|]; simpl in H; [|discriminate].
  destruct (float_or_none (longitud (row first_row))) as [lo|]; simpl in H; [|discriminate].
  injection H as <-. simpl. repeat split; reflexivity.
Qed.

Lemma station_of_group_inv (g : Z * list DRow) (ks : Z * Station) :
  station_of_group g = Ok ks ->
  exists first_row rest s0 ps,
    snd g = first_row :: rest
    /\ new_station (fst g) first_row = Ok s0
    /\ Forall2 (fun pg kp => product_of_group pg = Ok kp) (product_groups (snd g)) ps
    /\ ks = (fst g, with_products s0 ps).
Proof.
  unfold station_of_group. intros H.
  destruct (snd g) as [|first_row rest] eqn:Eg; simpl in H; [discriminate |].
  destruct (new_station (fst g) first_row) as [s0|] eqn:Es; simpl in H; [|discriminate].
  rewrite <- Eg in H.
  destruct (mapM product_of_group _) as [ps|] eqn:Ep; simpl in H; [|discriminate].
  injection H as <-. apply mapM_Ok_Forall2 in Ep.
  exists first_row, rest, s0, ps. rewrite Eg in *. auto.
Qed.

Lemma price_entry_date (r : DRow) (e : PricePoint) :
  price_entry r = Ok e -> format_date (fecha_vigencia_dt r) = Ok (date e).
Proof.
  unfold price_entry. intros H.
  destruct (float_or_none _); simpl in H; [|discriminate].
  destruct (format_date _); simpl in H; [|discriminate].
  destruct (Py.int _); simpl in H; [|discriminate].
  now injection H as <-.
Qed.



Lemma count_prices_filed (stations : Stations) :
  count_prices stations = List.length (filed_prices stations).
Proof.
  unfold count_prices, filed_prices. rewrite length_flat_map.
  f_equal. apply map_ext. intros s. rewrite length_flat_map.
  f_equal. apply map_ext. intros p. now rewrite length_map.
Qed.

Lemma format_output_map (stations : Stations) :
  format_output stations = map (fun kv => station_entry (snd kv)) stations.
Proof.
  unfold format_output.
  assert (G : forall acc,
             fold_left (fun output kv => output ++ [station_entry (snd kv)]) stations acc
             = acc ++ map (fun kv => station_entry (snd kv)) stations).
  { induction stations as [|kv stations IH]; intros acc; simpl.
    - now rewrite app_nil_r.
    - rewrite IH, <- app_assoc. reflexivity. }
  apply G.
Qed.

Lemma or_zero_cases (x : option float) :
  (x = None -> or_zero x = 0%float)
  /\ (forall v, x = Some v -> eq_zero v = false -> or_zero x = v)
  /\ (forall v, x = Some v -> eq_zero v = true -> or_zero x = 0%float).
Proof.
  unfold or_zero, truthy. destruct x as [w|].
  - split; [discriminate |].
    split; intros v [= ->] E; rewrite E; reflexivity.
  - split; [reflexivity |]. split; discriminate.
Qed.

(* ===================================================================== *)
(** * The Aggregator: what the result holds, and its properties *)
(* ===================================================================== *)

Section AggregatorFacts.

Variable sort_values : list DRow -> list DRow.
Hypothesis sort_ok : sorts_newest_first sort_values.

(** The two loops never meet a key twice: the [else] branch of line 114
    and the false branch of line 123 are never taken, and the result is
    one station per group, one product per subgroup. *)
Lemma process_stations_closed (df : list Row) :
  process_stations sort_values df =
  mapM station_of_group (groupby Z.compare station_by (sorted_table sort_values df)).
Proof.
  unfold process_stations. rewrite station_loop.
  - destruct (mapM station_of_group _); reflexivity.
  - rewrite groupby_keys. apply sorted_keys_NoDup.
    + apply Z.compare_eq.
    + apply Z.compare_refl.
    + intros a b. apply Z.compare_antisym.
    + apply Z_compare_trans.
  - simpl. auto.
Qed.

Lemma station_group_rows (df : list Row) (sid : Z) (g : list DRow) (r : DRow) :
  In (sid, g) (station_groups sort_values df) ->
  (In r g <-> In r (sorted_table sort_values df) /\ station_by r = Some sid).
Proof.
  exact (@groupby_rows _ Z.compare Z.compare_eq Z.compare_refl station_by _ sid g r).
Qed.

Lemma product_group_rows (station_group : list DRow) (k : Z * string)
    (g : list DRow) (r : DRow) :
  In (k, g) (product_groups station_group) ->
  (In r g <-> In r station_group /\ product_by r = Some k).
Proof.
  exact (@groupby_rows _ cmp_product cmp_product_eq cmp_product_refl product_by _ k g r).
Qed.

Lemma process_stations_groups (df : list Row) (stations : Stations) :
  process_stations sort_values df = Ok stations ->
  Forall2 (fun g ks => station_of_group g = Ok ks) (station_groups sort_values df) stations.
Proof.
  rewrite process_stations_closed. apply mapM_Ok_Forall2.
Qed.

Lemma product_group_filed (s : Station) (station_group : list DRow)
    (pg : (Z * string) * list DRow) (kp : string * Product) :
  (forall r, In r station_group -> station_by r = Some (stationId s)) ->
  In pg (product_groups station_group) ->
  product_of_group pg = Ok kp ->
  Forall2 filed (snd pg) (map (tag s (snd kp)) (prices (snd kp))).
Proof.
  intros Hst Hin Hkp. apply product_of_group_key in Hkp.
  destruct Hkp as (_ & Hid & Hname & Hes). apply mapM_Ok_Forall2 in Hes.
  apply Forall2_map_r. eapply Forall2_impl_In; [|exact Hes].
  intros r e Hr He. destruct pg as [k rows]. simpl in *.
  apply (product_group_rows _ _ _ r) in Hin.
  apply Hin in Hr. destruct Hr as [Hr Hk].
  unfold filed, tag. simpl. rewrite Hid, Hname.
  repeat split; [now apply Hst | now destruct k | assumption].
Qed.

Lemma station_group_filed (df : list Row) (g : Z * list DRow) (ks : Z * Station) :
  In g (station_groups sort_values df) ->
  station_of_group g = Ok ks ->
  Forall2 filed (flat_map snd (product_groups (snd g)))
          (flat_map (fun p => map (tag (snd ks) p) (prices p))
                    (Dict.values (products (snd ks)))).
Proof.
  intros Hin Hks. apply station_of_group_inv in Hks.
  destruct Hks as (first_row & rest & s0 & ps & Hg & Hs0 & Hps & ->).
  apply new_station_inv in Hs0. destruct Hs0 as (Hid & _).
  simpl. unfold Dict.values. rewrite flat_map_map.
  apply Forall2_flat_map. eapply Forall2_impl_In; [|exact Hps].
  intros pg kp Hpg Hkp. cbv beta.
  apply product_group_filed with (station_group := snd g); try assumption.
  intros r Hr. simpl. rewrite Hid. destruct g as [sid rows]. simpl in *.
  apply (station_group_rows _ _ _ r) in Hin.
  now apply Hin in Hr.
Qed.

Lemma all_filed (df : list Row) (stations : Stations) :
  process_stations sort_values df = Ok stations ->
  Forall2 filed
          (flat_map (fun g => flat_map snd (product_groups (snd g))) (station_groups sort_values df))
          (filed_prices stations).
Proof.
  intros H. apply process_stations_groups in H.
  unfold filed_prices, Dict.values. rewrite flat_map_map.
  apply Forall2_flat_map. eapply Forall2_impl_In; [|exact H].
  intros g ks Hg Hks. now apply station_group_filed with (df := df).
Qed.

Lemma grouped_rows_perm (df : list Row) :
  Permutation
    (flat_map (fun g => flat_map snd (product_groups (snd g))) (station_groups sort_values df))
    (filter keyed (add_fecha_vigencia_dt df)).
Proof.
  etransitivity.
  { apply Permutation_flat_map_ext. intros g _. unfold product_groups.
    apply (@groupby_partition _ cmp_product cmp_product_eq cmp_product_refl
             cmp_product_antisym cmp_product_trans product_by). }
  rewrite <- (filter_flat_map (fun r => is_some (product_by r)) snd).
  etransitivity.
  { apply Permutation_filter. unfold station_groups.
    apply (@groupby_partition _ Z.compare Z.compare_eq Z.compare_refl
             (fun a b => Z.compare_antisym b a) Z_compare_trans station_by). }
  rewrite filter_filter_andb. apply Permutation_filter, sort_ok.
Qed.

Lemma keyed_rows_length (df : list Row) :
  List.length (filter keyed (add_fecha_vigencia_dt df))
  = List.length (filter keyed_row df).
Proof.
  unfold add_fecha_vigencia_dt. rewrite filter_map_swap, length_map.
  f_equal. apply filter_ext. intros r.
  unfold keyed, keyed_row, station_by, product_by. simpl.
  destruct (idempresa r), (idproducto r), (producto r); reflexivity.
Qed.

Lemma station_keys (df : list Row) (stations : Stations) :
  process_stations sort_values df = Ok stations ->
  Dict.keys stations = map fst (station_groups sort_values df).
Proof.
  intros H. apply process_stations_groups in H. unfold Dict.keys.
  induction H as [|g ks gs kss Hg H IH]; simpl; [reflexivity |].
  apply station_of_group_key in Hg. now rewrite Hg, IH.
Qed.

Lemma station_keys_sorted (df : list Row) (stations : Stations) :
  process_stations sort_values df = Ok stations ->
  StronglySorted Z.lt (Dict.keys stations).
Proof.
  intros H. rewrite (station_keys _ H). unfold station_groups.
  rewrite groupby_keys.
  apply (@sorted_keys_sorted _ Z.compare Z.compare_eq
           (fun a b => Z.compare_antisym b a) Z_compare_trans).
Qed.

Lemma mapM_all_Ok {X Y : Type} (f : X -> result Y) (xs : list X) :
  (forall x, In x xs -> exists y, f x = Ok y) -> exists ys, mapM f xs = Ok ys.
Proof.
  induction xs as [|x xs IH]; intros H; simpl; [eauto |].
  destruct (H x) as (y & Hy); [now left |]. rewrite Hy. simpl.
  destruct IH as (ys & Hys); [intros; apply H; now right |].
  rewrite Hys. simpl. eauto.
Qed.

Lemma float_or_none_not_text (c : numcell) :
  not_text c = true -> exists v, float_or_none c = Ok v.
Proof. destruct c; intros H; try discriminate; eexists; reflexivity. Qed.

Lemma sorted_table_row_clean (df : list Row) (r : DRow) :
  forallb clean_row df = true -> In r (sorted_table sort_values df) ->
  clean_row (row r) = true /\ exists d, fecha_vigencia_dt r = Stamp d.
Proof.
  intros Hclean Hr. unfold sorted_table in Hr.
  apply (Permutation_in _ (proj1 sort_ok _)) in Hr.
  unfold add_fecha_vigencia_dt in Hr. apply in_map_iff in Hr.
  destruct Hr as (r0 & <- & Hr0). simpl.
  rewrite forallb_forall in Hclean. specialize (Hclean _ Hr0).
  split; [assumption |].
  unfold clean_row in Hclean. rewrite !andb_true_iff in Hclean.
  destruct Hclean as (_ & Hdate).
  destruct (parse_date (fecha_vigencia r0)) as [d|]; [|discriminate].
  simpl. eauto.
Qed.

Lemma price_entry_clean (r : DRow) :
  clean_row (row r) = true -> (exists d, fecha_vigencia_dt r = Stamp d) ->
  exists e, price_entry r = Ok e.
Proof.
  unfold clean_row. rewrite !andb_true_iff.
  intros (((((_ & Hh) & _) & _) & Hp) & _) (d & Hd). unfold price_entry.
  destruct (float_or_none_not_text _ Hp) as (v & ->). rewrite Hd. simpl.
  destruct (idtipohorario (row r)); [|discriminate]. simpl. eauto.
Qed.

Lemma new_station_clean (station_id : Z) (r : DRow) :
  clean_row (row r) = true -> exists s, new_station station_id r = Ok s.
Proof.
  unfold clean_row. rewrite !andb_true_iff.
  intros (((((Hf & _) & Hla) & Hlo) & _) & _). unfold new_station.
  destruct (idempresabandera (row r)); [|discriminate]. simpl.
  destruct (float_or_none_not_text _ Hla) as (la & ->).
  destruct (float_or_none_not_text _ Hlo) as (lo & ->). simpl. eauto.
Qed.

(** On a table of clean rows the Aggregator returns. *)
Lemma process_stations_returns (df : list Row) :
  forallb clean_row df = true ->
  exists stations, process_stations sort_values df = Ok stations.
Proof.
  intros Hclean. rewrite process_stations_closed.
  apply mapM_all_Ok. intros [sid rows] Hg.
  pose proof (@groupby_nonempty _ Z.compare Z.compare_eq Z.compare_refl
                station_by _ sid rows Hg) as Hne.
  assert (Hrows : forall r, In r rows -> In r (sorted_table sort_values df))
    by (intros r Hr; now apply (station_group_rows _ _ _ r Hg)).
  unfold station_of_group. simpl.
  destruct rows as [|first_row rest]; [congruence |]. simpl.
  destruct (sorted_table_row_clean _ _ Hclean (Hrows first_row (or_introl eq_refl)))
    as (Hc & _).
  destruct (new_station_clean sid _ Hc) as (s & ->). simpl.
  destruct (mapM_all_Ok product_of_group
              (groupby cmp_product product_by (first_row :: rest))) as (ps & ->);
    [|simpl; eauto].
  intros [k prows] Hpg. unfold product_of_group. simpl.
  destruct (mapM_all_Ok price_entry prows) as (es & ->); [|simpl; eauto].
  intros r Hr. apply (product_group_rows _ _ _ r Hpg) in Hr. destruct Hr as [Hr _].
  destruct (sorted_table_row_clean _ _ Hclean (Hrows r Hr)) as (Hc' & Hd).
  now apply price_entry_clean.
Qed.

Lemma keyed_rows_filed (df : list Row) (stations : Stations) :
  process_stations sort_values df = Ok stations ->
  exists pts,
    Forall2 filed (filter keyed (add_fecha_vigencia_dt df)) pts
    /\ Permutation pts (filed_prices stations).
Proof.
  intros H.
  destruct (Permutation_Forall2 (grouped_rows_perm df) (all_filed _ H))
    as (pts & Hperm & Hfiled).
  exists pts. split; [assumption | now symmetry].
Qed.

Lemma station_group_is_filter (df : list Row) (sid : Z) (g : list DRow) :
  In (sid, g) (station_groups sort_values df) ->
  g = filter (fun r => has_key Z.compare sid (station_by r)) (sorted_table sort_values df).
Proof.
  intros H.
  exact (proj1 (@groupby_In _ Z.compare Z.compare_eq station_by _ sid g H)).
Qed.

Lemma product_group_is_filter (station_group : list DRow) (k : Z * string) (g : list DRow) :
  In (k, g) (product_groups station_group) ->
  g = filter (fun r => has_key cmp_product k (product_by r)) station_group.
Proof.
  intros H.
  exact (proj1 (@groupby_In _ cmp_product cmp_product_eq product_by _ k g H)).
Qed.

Lemma sorted_table_sorted (df : list Row) : StronglySorted newer_first (sorted_table sort_values df).
Proof. apply sort_ok. Qed.

Lemma sorted_table_rows (df : list Row) : Permutation (map row (sorted_table sort_values df)) df.
Proof.
  unfold sorted_table. rewrite (proj1 sort_ok).
  unfold add_fecha_vigencia_dt. rewrite map_map. simpl. now rewrite map_id.
Qed.

(** The rows behind one product of one station of the result. *)
Lemma product_rows (df : list Row) (stations : Stations)
    (sid : Z) (s : Station) (key : string) (p : Product) :
  process_stations sort_values df = Ok stations ->
  In (sid, s) stations -> In (key, p) (products s) ->
  exists rows,
    mapM price_entry rows = Ok (prices p)
    /\ rows = filter (fun r => has_key cmp_product (productId p, productName p) (product_by r))
                (filter (fun r => has_key Z.compare sid (station_by r)) (sorted_table sort_values df)).
Proof.
  intros H Hs Hp. apply process_stations_groups in H.
  destruct (Forall2_In_r _ H Hs) as ([sid' sg] & Hg & Hks).
  pose proof (station_of_group_key _ Hks) as Hsid. simpl in Hsid. subst sid'.
  apply station_of_group_inv in Hks.
  destruct Hks as (first_row & rest & s0 & ps & _ & _ & Hps & [= ->]).
  simpl in Hp, Hps.
  destruct (Forall2_In_r _ Hps Hp) as ([k rows] & Hpg & Hkp).
  apply product_of_group_key in Hkp. simpl in Hkp.
  destruct Hkp as (_ & Hid & Hname & Hes).
  exists rows. split; [assumption |].
  apply product_group_is_filter in Hpg. apply station_group_is_filter in Hg.
  rewrite Hid, Hname, <- Hg. now destruct k.
Qed.

Lemma station_id_is_key (df : list Row) (stations : Stations) (sid : Z) (s : Station) :
  process_stations sort_values df = Ok stations -> In (sid, s) stations -> stationId s = sid.
Proof.
  intros H Hs. apply process_stations_groups in H.
  destruct (Forall2_In_r _ H Hs) as (g & _ & Hks).
  apply station_of_group_inv in Hks.
  destruct Hks as (first_row & rest & s0 & ps & _ & Hs0 & _ & [= -> ->]).
  apply new_station_inv in Hs0. simpl. tauto.
Qed.

Lemma output_ids (df : list Row) (stations : Stations) :
  process_stations sort_values df = Ok stations ->
  map Out.stationId (format_output stations) = Dict.keys stations.
Proof.
  intros H. rewrite format_output_map, map_map. unfold Dict.keys.
  apply map_ext_in. intros [sid s] Hs. simpl. eapply station_id_is_key; eauto.
Qed.

(** C1, amended: whenever the Aggregator returns, the number of price
    points over all products of all stations is the number of input rows
    that have a station id, a product id and a product name; station ids
    occur once; and the price points, each with the station and product
    it is filed under, are one for one the entries of those rows, each
    under the row's own station and product. *)
Theorem C1_price_points_are_the_keyed_rows (df : list Row) (stations : Stations) :
  process_stations sort_values df = Ok stations ->
  count_prices stations = List.length (filter keyed_row df)
  /\ NoDup (Dict.keys stations)
  /\ exists pts,
       Forall2 filed (filter keyed (add_fecha_vigencia_dt df)) pts
       /\ Permutation pts (filed_prices stations).
Proof.
  intros H. destruct (keyed_rows_filed _ H) as (pts & Hfiled & Hperm).
  split; [|split].
  - rewrite count_prices_filed, <- (Permutation_length Hperm).
    rewrite <- (Forall2_length Hfiled). apply keyed_rows_length.
  - rewrite (station_keys _ H). unfold station_groups. rewrite groupby_keys.
    apply (@sorted_keys_NoDup _ Z.compare Z.compare_eq Z.compare_refl
             (fun a b => Z.compare_antisym b a) Z_compare_trans).
  - exists pts. split; assumption.
Qed.

(** Whatever the sort does with rows of equal date, it puts the row of
    02/06 of the two-row sample before the row of 01/06. *)
Lemma two_dates_table :
  sorted_table sort_values Sample.two_dates
  = rev (add_fecha_vigencia_dt Sample.two_dates).
Proof.
  unfold sorted_table. destruct sort_ok as [Hp Hs].
  specialize (Hp (add_fecha_vigencia_dt Sample.two_dates)).
  specialize (Hs (add_fecha_vigencia_dt Sample.two_dates)).
  remember (sort_values (add_fecha_vigencia_dt Sample.two_dates)) as t eqn:Et.
  clear Et.
  remember (add_fecha_vigencia_dt Sample.two_dates) as l eqn:El.
  vm_compute in El. subst l.
  apply Permutation_sym, Permutation_length_2_inv in Hp.
  destruct Hp as [-> | ->]; [|reflexivity].
  exfalso. inversion Hs as [|? ? _ Hf]. inversion Hf as [|? ? Hab _].
  vm_compute in Hab. apply Hab. reflexivity.
Qed.

(** C2: in every result of the Aggregator, the price list of every
    product of every station is, entry for entry, the list of the rows of
    that station and product in an order of non-increasing parsed date
    with the rows without a date last, each entry carrying its row's
    formatted date; and the two rows dated 01/06/2023 10:00 and
    02/06/2023 09:00 give one product with two prices, the one of 02/06
    first. *)
Theorem C2_prices_most_recent_first (df : list Row) (stations : Stations) :
  process_stations sort_values df = Ok stations ->
  (forall sid s key p,
      In (sid, s) stations -> In (key, p) (products s) ->
      exists rows,
        Forall2 (fun r e => price_entry r = Ok e
                            /\ format_date (fecha_vigencia_dt r) = Ok (date e))
                rows (prices p)
        /\ StronglySorted newer_first rows
        /\ (forall r, In r rows <->
                      In r (sorted_table sort_values df) /\ station_by r = Some sid
                      /\ product_by r = Some (productId p, productName p)))
  /\ (exists s p e1 e2,
         process_stations sort_values Sample.two_dates = Ok [(7%Z, s)]
         /\ Dict.values (products s) = [p]
         /\ prices p = [e1; e2]
         /\ date e1 = Some "2023-06-02T09:00:00Z"%string
         /\ date e2 = Some "2023-06-01T10:00:00Z"%string).
Proof.
  intros H. split.
  - intros sid s key p Hs Hp.
    destruct (product_rows _ _ _ _ _ H Hs Hp) as (rows & Hes & Hrows).
    exists rows. split; [|split].
    + apply mapM_Ok_Forall2 in Hes. eapply Forall2_impl_In; [|exact Hes].
      intros r e _ He. split; [assumption | now apply price_entry_date].
    + rewrite Hrows. apply StronglySorted_filter, StronglySorted_filter.
      apply sorted_table_sorted.
    + intros r. rewrite Hrows, !filter_In.
      rewrite (has_key_true cmp_product cmp_product_eq cmp_product_refl).
      rewrite (has_key_true Z.compare Z.compare_eq Z.compare_refl). tauto.
  - do 4 eexists. split.
    + unfold process_stations. rewrite two_dates_table. vm_compute. reflexivity.
    + repeat split; reflexivity.
Qed.



(** C5, amended: the Formatter emits one entry per station in the
    iteration order of the mapping, and each station's products as the
    list of the values of its product mapping in that mapping's order;
    the mapping the Aggregator builds has the station ids of the table in
    increasing order, because the grouping hands out its groups in sorted
    key order. *)
Theorem C5_output_follows_the_mapping_which_is_by_station_id
    (df : list Row) (stations : Stations) :
  process_stations sort_values df = Ok stations ->
  format_output stations = map (fun kv => station_entry (snd kv)) stations
  /\ (forall kv, In kv stations ->
                 Out.products (station_entry (snd kv)) = Dict.values (products (snd kv)))
  /\ map Out.stationId (format_output stations) = Dict.keys stations
  /\ StronglySorted Z.lt (map Out.stationId (format_output stations))
  /\ (forall sid, In sid (map Out.stationId (format_output stations))
                  <-> In (Some sid) (map idempresa df)).
Proof.
  intros H. split; [apply format_output_map |]. split; [reflexivity |].
  split; [now apply output_ids with (df := df) |].
  rewrite (output_ids _ H). split; [now apply station_keys_sorted with (df := df) |].
  intros sid. rewrite (station_keys _ H). unfold station_groups.
  rewrite groupby_keys, (sorted_keys_In Z.compare Z.compare_eq), present_In.
  assert (E : map station_by (sorted_table sort_values df)
              = map idempresa (map row (sorted_table sort_values df)))
    by (rewrite map_map; reflexivity).
  rewrite E. split; intros Hin.
  - eapply Permutation_in; [|exact Hin]. apply Permutation_map, sorted_table_rows.
  - eapply Permutation_in; [|exact Hin].
    apply Permutation_map. symmetry. apply sorted_table_rows.
Qed.

End AggregatorFacts.

(* ===================================================================== *)
(** * The Aggregator: counterexamples and witnesses *)
(* ===================================================================== *)

(** C1, as stated, fails: a row whose product name cell is empty belongs
    to no product group, so the one input row gives a station with no
    price point at all. *)
Lemma C1_row_without_product_name_is_dropped :
  exists stations,
    process_stations sort_values_stable Sample.no_product_name = Ok stations
    /\ List.length Sample.no_product_name = 1
    /\ count_prices stations = 0.
Proof.
  eexists. split; [vm_compute; reflexivity |]. split; reflexivity.
Qed.

(** C1 holds with its hypotheses met on a sample. *)
Lemma C1_witness :
  process_stations sort_values_stable Sample.two_dates
  = Ok (stations_of Sample.two_dates)
  /\ count_prices (stations_of Sample.two_dates)
     = List.length (filter keyed_row Sample.two_dates)
  /\ List.length (filter keyed_row Sample.two_dates) = 2.
Proof.
  assert (H : process_stations sort_values_stable Sample.two_dates
              = Ok (stations_of Sample.two_dates)) by (vm_compute; reflexivity).
  split; [exact H |]. split; [|reflexivity].
  exact (proj1 (@C1_price_points_are_the_keyed_rows sort_values_stable
                  sort_values_stable_ok _ _ H)).
Defined.

(** C2 holds with its hypotheses met on a sample. *)
Lemma C2_witness :
  process_stations sort_values_stable Sample.bad_date_far
  = Ok (stations_of Sample.bad_date_far)
  /\ forall sid s key p,
       In (sid, s) (stations_of Sample.bad_date_far) -> In (key, p) (products s) ->
       exists rows,
         Forall2 (fun r e => price_entry r = Ok e
                             /\ format_date (fecha_vigencia_dt r) = Ok (date e))
                 rows (prices p)
         /\ StronglySorted newer_first rows
         /\ (forall r, In r rows <->
                       In r (sorted_table sort_values_stable Sample.bad_date_far)
                       /\ station_by r = Some sid
                       /\ product_by r = Some (productId p, productName p)).
Proof.
  assert (H : process_stations sort_values_stable Sample.bad_date_far
              = Ok (stations_of Sample.bad_date_far)) by (vm_compute; reflexivity).
  split; [exact H |].
  exact (proj1 (@C2_prices_most_recent_first sort_values_stable
                  sort_values_stable_ok _ _ H)).
Defined.




(** C5, as stated, fails: station 2 is the first station met in the
    table sorted by date, yet station 1 comes first in the output. *)
Lemma C5_stations_are_not_in_first_seen_order :
  exists stations,
    process_stations sort_values_stable Sample.two_stations = Ok stations
    /\ first_seen_stations (sorted_table sort_values_stable Sample.two_stations) = [2%Z; 1%Z]
    /\ map Out.stationId (format_output stations) = [1%Z; 2%Z].
Proof.
  eexists. split; [vm_compute; reflexivity |]. split; reflexivity.
Qed.

(** C5 holds with its hypotheses met on a sample. *)
Lemma C5_witness :
  process_stations sort_values_stable Sample.two_stations
  = Ok (stations_of Sample.two_stations)
  /\ map Out.stationId (format_output (stations_of Sample.two_stations))
     = Dict.keys (stations_of Sample.two_stations)
  /\ StronglySorted Z.lt
       (map Out.stationId (format_output (stations_of Sample.two_stations))).
Proof.
  assert (H : process_stations sort_values_stable Sample.two_stations
              = Ok (stations_of Sample.two_stations)) by (vm_compute; reflexivity).
  split; [exact H |].
  pose proof (@C5_output_follows_the_mapping_which_is_by_station_id
                sort_values_stable sort_values_stable_ok _ _ H)
    as (_ & _ & Hids & Hsorted & _).
  split; assumption.
Defined.

(* ===================================================================== *)
(** * The Formatter: properties *)
(* ===================================================================== *)

(** C8: the entry the Formatter emits for a station has the station's id,
    name, address, town, province, flag and flag id, its products with
    their prices as they are, and a Point geometry whose coordinates are
    the longitude then the latitude, with 0.0 for an axis that is null (a
    zero axis is emitted as 0.0 as well); a station whose lookup failed
    and whose coordinates stayed null is emitted with [0.0, 0.0]. *)
Theorem C8_entry_fields_and_geometry
    (stations : Stations) (i : nat) (sid : Z) (s : Station) :
  nth_error stations i = Some (sid, s) ->
  (exists e,
      nth_error (format_output stations) i = Some e
      /\ Out.stationId e = stationId s
      /\ Out.stationName e = stationName s
      /\ Out.address e = address s
      /\ Out.town e = town s
      /\ Out.province e = province s
      /\ Out.flag e = flag s
      /\ Out.flagId e = flagId s
      /\ Out.products e = Dict.values (products s)
      /\ Out.type (Out.geometry e) = "Point"%string
      /\ exists x y,
           Out.coordinates (Out.geometry e) = [x; y]
           /\ (lng (coordinates s) = None -> x = 0%float)
           /\ (forall v, lng (coordinates s) = Some v -> eq_zero v = false -> x = v)
           /\ (forall v, lng (coordinates s) = Some v -> eq_zero v = true -> x = 0%float)
           /\ (lat (coordinates s) = None -> y = 0%float)
           /\ (forall v, lat (coordinates s) = Some v -> eq_zero v = false -> y = v)
           /\ (forall v, lat (coordinates s) = Some v -> eq_zero v = true -> y = 0%float))
  /\ (exists e,
         main sort_values_stable (Some "key"%string) Sample.failing Sample.no_coordinates
         = Ok ([e], ["Av. Rivadavia 100, CABA, BUENOS AIRES, Argentina"%string])
         /\ Out.coordinates (Out.geometry e) = [0%float; 0%float]).
Proof.
  intros H. split.
  - exists (station_entry s). split.
    + rewrite format_output_map. now rewrite nth_error_map, H.
    + simpl. repeat split; try reflexivity.
      exists (or_zero (lng (coordinates s))), (or_zero (lat (coordinates s))).
      split; [reflexivity |].
      pose proof (or_zero_cases (lng (coordinates s))) as (? & ? & ?).
      pose proof (or_zero_cases (lat (coordinates s))) as (? & ? & ?).
      repeat split; assumption.
  - eexists. split; [vm_compute; reflexivity | reflexivity].
Qed.

(** C8 holds with its hypotheses met on a sample. *)
Lemma C8_witness :
  exists e,
    nth_error (format_output (stations_of Sample.zero_lat)) 0 = Some e
    /\ Out.stationName e = Some "ESTACION CENTRO"%string
    /\ Out.coordinates (Out.geometry e) = [(-58.4)%float; 0%float].
Proof.
  destruct (@C8_entry_fields_and_geometry (stations_of Sample.zero_lat) 0 7
              (mkStation 7 (Some "ESTACION CENTRO"%string)
                 (Some "Av. Rivadavia 100"%string) (Some "CABA"%string)
                 (Some "BUENOS AIRES"%string) (Some "YPF"%string) 2
                 (mkCoordinates (Some 0%float) (Some (-58.4)%float))
                 [("3_Nafta"%string,
                   mkProduct 3 "Nafta"
                     [mkPricePoint (Some 100%float)
                        (Some "2023-06-01T10:00:00Z"%string)
                        (Some "Diurno"%string) 2])]))
    as ((e & He & _ & Hname & _) & _).
  - vm_compute. reflexivity.
  - exists e. split; [exact He |]. split; [exact Hname |].
    vm_compute in He. injection He as <-. reflexivity.
Defined.

(* ===================================================================== *)
(** * The Resolver: properties *)
(* ===================================================================== *)

(** C10: with a null, NaN or empty address [geocode_address_async]
    returns the failure pair and sends no request, whether geocoding is
    enabled or not. *)
Theorem C10_no_request_without_an_address
    (enabled : bool) (sess : Geo.session) (addr : Geo.pyaddr) :
  addr = Geo.AddrNone \/ addr = Geo.AddrNaN \/ addr = Geo.AddrStr ""%string ->
  Geo.geocode_address_async enabled sess addr = ((None, None), []).
Proof.
  intros [-> | [-> | ->]]; unfold Geo.geocode_address_async; simpl;
    now rewrite ?orb_true_r.
Qed.

(** C10 holds with its hypotheses met on a sample. *)
Lemma C10_witness :
  Geo.geocode_address_async true (Sample.obelisco 7) (Geo.AddrStr ""%string)
  = ((None, None), []).
Proof.
  apply C10_no_request_without_an_address. right. right. reflexivity.
Defined.




Lemma append_nonempty (a b : string) (c : ascii) : (a ++ String c b)%string <> ""%string.
Proof. destruct a; discriminate. Qed.

Lemma query_nonempty (s : Station) : String.eqb (Geo.query s) "" = false.
Proof.
  apply String.eqb_neq. unfold Geo.query.
  change (", " ++ ?x)%string with (String "," (String " " x)).
  apply append_nonempty.
Qed.

(** A task sends exactly one request, for the query of its station. *)
Lemma one_request (world : Z -> Geo.session) (task : Z * Station) :
  snd (Geo.geocode_address_async true (world (fst task))
         (Geo.AddrStr (Geo.query (snd task)))) = [Geo.query (snd task)].
Proof.
  unfold Geo.geocode_address_async. simpl. rewrite query_nonempty. simpl.
  destruct (world (fst task) (Geo.query (snd task))) as [|[st|] [|[la lo] rs]];
    try reflexivity.
  destruct (String.eqb st "OK"); reflexivity.
Qed.

Lemma get_of_In (stations : Stations) (sid : Z) (s : Station) :
  NoDup (Dict.keys stations) -> In (sid, s) stations ->
  Dict.get Z.eqb sid stations = Some s.
Proof.
  induction stations as [|[k v] stations IH]; simpl; [tauto |].
  intros Hnd [[= -> ->]|Hin].
  - now rewrite Z.eqb_refl.
  - inversion Hnd as [|? ? Hk Hnd']; subst.
    destruct (Z.eqb sid k) eqn:E; [|now apply IH].
    apply Z.eqb_eq in E. subst. exfalso. apply Hk.
    change k with (fst (k, s)). now apply in_map.
Qed.

Lemma set_as_map (stations : Stations) (sid : Z) (v : Station) :
  NoDup (Dict.keys stations) -> In sid (Dict.keys stations) ->
  Dict.set Z.eqb sid v stations
  = map (fun kv => if Z.eqb (fst kv) sid then (fst kv, v) else kv) stations.
Proof.
  induction stations as [|[k w] stations IH]; simpl; [tauto |].
  intros Hnd Hin. inversion Hnd as [|? ? Hk Hnd']; subst.
  rewrite (Z.eqb_sym k sid). destruct (Z.eqb sid k) eqn:E.
  - apply Z.eqb_eq in E. subst. f_equal.
    rewrite <- (map_id stations) at 1. apply map_ext_in.
    intros [k' w'] Hin'. simpl. destruct (Z.eqb k' k) eqn:E'; [|reflexivity].
    apply Z.eqb_eq in E'. subst. exfalso. apply Hk.
    change k with (fst (k, w')). now apply in_map.
  - f_equal. apply IH; [assumption |].
    destruct Hin as [->|Hin]; [rewrite Z.eqb_refl in E; discriminate | assumption].
Qed.

Lemma resolved_key (world : Z -> Geo.session) (kv : Z * Station) :
  fst (resolved world kv) = fst kv.
Proof. unfold resolved. now destruct (_ && _). Qed.

Lemma resolve_ids_keys (world : Z -> Geo.session) (ids : list Z) (stations : Stations) :
  Dict.keys (resolve_ids world ids stations) = Dict.keys stations.
Proof.
  unfold resolve_ids, Dict.keys. rewrite map_map. apply map_ext.
  intros kv. destruct (existsb _ ids); [apply resolved_key | reflexivity].
Qed.

(** One task, on a mapping that holds the task's station. *)
Lemma geocode_and_update_step (world : Z -> Geo.session)
    (stations : Stations) (log : list string) (task : Z * Station) :
  NoDup (Dict.keys stations) -> In task stations ->
  Geo.geocode_and_update true world (stations, log) task
  = (resolve_ids world [fst task] stations, log ++ [Geo.query (snd task)]).
Proof.
  intros Hnd Hin. destruct task as [sid s].
  unfold Geo.geocode_and_update.
  pose proof (one_request world (sid, s)) as Hreq.
  assert (Hlook : lookup world (sid, s)
                  = fst (Geo.geocode_address_async true (world sid)
                           (Geo.AddrStr (Geo.query s)))) by reflexivity.
  simpl in Hreq.
  destruct (Geo.geocode_address_async true (world sid) (Geo.AddrStr (Geo.query s)))
    as [[la lo] sent]. simpl in Hreq, Hlook. subst sent. simpl fst. simpl snd.
  unfold resolve_ids.
  destruct (truthy la && truthy lo) eqn:E; f_equal.
  - unfold Geo.set_coordinates. rewrite (@get_of_In _ _ _ Hnd Hin).
    rewrite set_as_map; [| assumption |].
    + apply map_ext_in. intros [k w] Hk. simpl. rewrite orb_false_r.
      destruct (Z.eqb k sid) eqn:Ek; [|reflexivity].
      apply Z.eqb_eq in Ek. subst k.
      assert (w = s).
      { pose proof (@get_of_In _ _ _ Hnd Hk) as H1. rewrite (@get_of_In _ _ _ Hnd Hin) in H1.
        congruence. }
      subst w. unfold resolved. rewrite Hlook. simpl. now rewrite E.
    + change sid with (fst (sid, s)). now apply in_map.
  - rewrite <- (map_id stations) at 1. apply map_ext_in.
    intros [k w] Hk. simpl. rewrite orb_false_r.
    destruct (Z.eqb k sid) eqn:Ek; [|reflexivity].
    apply Z.eqb_eq in Ek. subst k.
    assert (w = s).
    { pose proof (@get_of_In _ _ _ Hnd Hk) as H1. rewrite (@get_of_In _ _ _ Hnd Hin) in H1.
      congruence. }
    subst w. unfold resolved. rewrite Hlook. simpl. now rewrite E.
Qed.

Lemma existsb_eqb_In (k : Z) (ids : list Z) : existsb (Z.eqb k) ids = true <-> In k ids.
Proof.
  rewrite existsb_exists. split.
  - intros (x & Hx & E). apply Z.eqb_eq in E. now subst.
  - intros H. exists k. split; [assumption | apply Z.eqb_refl].
Qed.

(** The tasks of distinct stations of the mapping, run in any order, leave
    each of those stations as its own task leaves it and the others as
    they were; one request is sent per task. *)
Lemma run_tasks_any_order (world : Z -> Geo.session) (tasks : list (Z * Station)) :
  forall (stations : Stations) (log : list string),
    NoDup (Dict.keys stations) -> NoDup (map fst tasks) ->
    (forall t, In t tasks -> In t stations) ->
    fold_left (Geo.geocode_and_update true world) tasks (stations, log)
    = (resolve_ids world (map fst tasks) stations,
       log ++ map (fun t => Geo.query (snd t)) tasks).
Proof.
  induction tasks as [|t tasks IH]; intros stations log Hnd Hnt Hin; simpl.
  - rewrite app_nil_r. f_equal. unfold resolve_ids. simpl.
    rewrite <- (map_id stations) at 1. reflexivity.
  - rewrite geocode_and_update_step by (auto; apply Hin; now left).
    inversion Hnt as [|? ? Ht Hnt']; subst.
    rewrite IH.
    + rewrite <- app_assoc. simpl. f_equal.
      unfold resolve_ids. rewrite map_map. apply map_ext. intros kv. simpl.
      rewrite orb_false_r. destruct (Z.eqb (fst kv) (fst t)) eqn:E; simpl.
      * rewrite resolved_key.
        destruct (existsb (Z.eqb (fst kv)) (map fst tasks)) eqn:E'; [|reflexivity].
        apply existsb_eqb_In in E'. apply Z.eqb_eq in E. rewrite E in E'. contradiction.
      * reflexivity.
    + now rewrite resolve_ids_keys.
    + assumption.
    + intros t' Ht'. unfold resolve_ids. apply in_map_iff. exists t'.
      split; [|apply Hin; now right]. simpl. rewrite orb_false_r.
      destruct (Z.eqb (fst t') (fst t)) eqn:E; [|reflexivity].
      apply Z.eqb_eq in E. exfalso. apply Ht. rewrite <- E. now apply in_map.
Qed.

Lemma resolve_ids_perm (world : Z -> Geo.session) (ids ids' : list Z) (stations : Stations) :
  Permutation ids ids' -> resolve_ids world ids stations = resolve_ids world ids' stations.
Proof.
  intros Hp. unfold resolve_ids. apply map_ext. intros kv.
  destruct (existsb (Z.eqb (fst kv)) ids) eqn:E, (existsb (Z.eqb (fst kv)) ids') eqn:E';
    try reflexivity.
  - apply existsb_eqb_In in E. apply (Permutation_in _ Hp), existsb_eqb_In in E. congruence.
  - apply existsb_eqb_In in E'. apply (Permutation_in _ (Permutation_sym Hp)) in E'.
    apply existsb_eqb_In in E'. congruence.
Qed.

Lemma tasks_have_distinct_ids (stations : Stations) :
  NoDup (Dict.keys stations) -> NoDup (map fst (Geo.stations_to_geocode stations)).
Proof.
  unfold Geo.stations_to_geocode, Dict.keys.
  induction stations as [|kv stations IH]; simpl; intros Hnd; [constructor |].
  inversion Hnd as [|? ? Hk Hnd']; subst.
  destruct (Geo.needs_geocoding _); simpl; [|auto].
  constructor; [|auto]. intros Hin. apply Hk.
  apply in_map_iff in Hin. destruct Hin as (t & Et & Ht).
  apply filter_In in Ht. rewrite <- Et. apply in_map. tauto.
Qed.

Lemma tasks_are_stations (stations : Stations) (t : Z * Station) :
  In t (Geo.stations_to_geocode stations) -> In t stations.
Proof. intros Ht. apply filter_In in Ht. tauto. Qed.

(** The mapping the tasks leave does not depend on the order in which
    they complete. *)
Lemma completion_order_irrelevant (world : Z -> Geo.session) (stations : Stations)
    (order : list (Z * Station)) :
  NoDup (Dict.keys stations) ->
  Permutation order (Geo.stations_to_geocode stations) ->
  fst (Geo.run_tasks true world stations order)
  = fst (Geo.run_tasks true world stations (Geo.stations_to_geocode stations)).
Proof.
  intros Hnd Hp. unfold Geo.run_tasks.
  pose proof (@tasks_have_distinct_ids _ Hnd) as Hnt.
  rewrite !run_tasks_any_order; auto using tasks_are_stations.
  - simpl. apply resolve_ids_perm. now apply Permutation_map.
  - eapply Permutation_NoDup; [|exact Hnt]. apply Permutation_map. now symmetry.
  - intros t Ht. apply tasks_are_stations. eapply Permutation_in; eauto.
Qed.

(** The Resolver, with geocoding enabled, in closed form. *)
Lemma validate_enabled (world : Z -> Geo.session) (stations : Stations) :
  NoDup (Dict.keys stations) ->
  Geo.validate_and_geocode_stations true world stations
  = (resolve_ids world (map fst (Geo.stations_to_geocode stations)) stations,
     map (fun t => Geo.query (snd t)) (Geo.stations_to_geocode stations)).
Proof.
  intros Hnd. unfold Geo.validate_and_geocode_stations. simpl.
  pose proof (@run_tasks_any_order world (Geo.stations_to_geocode stations)
                stations [] Hnd (@tasks_have_distinct_ids _ Hnd)
                (@tasks_are_stations stations)) as H.
  unfold Geo.run_tasks.
  destruct (Geo.stations_to_geocode stations) as [|t ts] eqn:E; [|exact H].
  simpl. f_equal. unfold resolve_ids. simpl.
  rewrite <- (map_id stations) at 1. reflexivity.
Qed.

Lemma selected_iff_needs (stations : Stations) (sid : Z) (s : Station) :
  NoDup (Dict.keys stations) -> In (sid, s) stations ->
  existsb (Z.eqb sid) (map fst (Geo.stations_to_geocode stations))
  = Geo.needs_geocoding (coordinates s).
Proof.
  intros Hnd Hin.
  destruct (Geo.needs_geocoding (coordinates s)) eqn:E.
  - apply existsb_eqb_In. change sid with (fst (sid, s)). apply in_map.
    apply filter_In. auto.
  - destruct (existsb _ _) eqn:E'; [|reflexivity].
    apply existsb_eqb_In, in_map_iff in E'. destruct E' as ([k w] & Ek & Ht).
    simpl in Ek. subst k. apply filter_In in Ht. destruct Ht as [Ht Hneeds].
    pose proof (@get_of_In _ _ _ Hnd Ht) as H1.
    rewrite (@get_of_In _ _ _ Hnd Hin) in H1. injection H1 as ->.
    simpl in Hneeds. congruence.
Qed.

Lemma truthy_pair_is_valid (la lo : option float) :
  truthy la && truthy lo = true ->
  Geo.needs_geocoding (mkCoordinates la lo) = false.
Proof.
  unfold Geo.needs_geocoding, truthy. simpl.
  destruct la as [x|], lo as [y|]; simpl; try discriminate;
    try (rewrite andb_false_r; discriminate).
  rewrite andb_true_iff, !negb_true_iff. intros [-> ->]. reflexivity.
Qed.

(** C7, as stated, fails: the lookup for the station without coordinates
    succeeds, with status OK and the pair (0.0, -58.4), and the station's
    coordinates are not overwritten with that pair. *)
Lemma C7_successful_lookup_on_the_equator_is_discarded :
  exists stations,
    process_stations sort_values_stable Sample.no_coordinates = Ok stations
    /\ Geo.geocode_address_async true (Sample.equator 7)
         (Geo.AddrStr "Av. Rivadavia 100, CABA, BUENOS AIRES, Argentina")
       = ((Some 0%float, Some (-58.4)%float),
          ["Av. Rivadavia 100, CABA, BUENOS AIRES, Argentina"%string])
    /\ Geo.validate_and_geocode_stations true Sample.equator stations
       = (stations, ["Av. Rivadavia 100, CABA, BUENOS AIRES, Argentina"%string])
    /\ map (fun kv => coordinates (snd kv)) stations = [mkCoordinates None None].
Proof.
  eexists. split; [vm_compute; reflexivity |].
  split; [reflexivity |]. split; reflexivity.
Qed.

(** C7, amended: with geocoding enabled the Resolver sends exactly one
    request per selected station and none for the others; a selected
    station whose lookup returns a pair of which both values are non-zero
    has both coordinate fields overwritten with that pair; a selected
    station whose lookup fails, or returns a pair with a zero in it, and
    every station that was not selected, is left as it was; no other
    field changes; and a station that still needs resolution afterwards
    is one that was left as it was. *)
Theorem C7_update_on_a_nonzero_pair_else_untouched
    (world : Z -> Geo.session) (stations : Stations) :
  NoDup (Dict.keys stations) ->
  exists after,
    Geo.validate_and_geocode_stations true world stations
    = (after, map (fun t => Geo.query (snd t)) (Geo.stations_to_geocode stations))
    /\ Dict.keys after = Dict.keys stations
    /\ forall sid s,
         In (sid, s) stations ->
         exists s',
           In (sid, s') after
           /\ s' = with_coordinates s (coordinates s')
           /\ (Geo.needs_geocoding (coordinates s) = false -> s' = s)
           /\ (Geo.needs_geocoding (coordinates s) = true ->
               truthy (fst (lookup world (sid, s)))
               && truthy (snd (lookup world (sid, s))) = true ->
               coordinates s' = mkCoordinates (fst (lookup world (sid, s)))
                                              (snd (lookup world (sid, s))))
           /\ (Geo.needs_geocoding (coordinates s) = true ->
               truthy (fst (lookup world (sid, s)))
               && truthy (snd (lookup world (sid, s))) = false ->
               s' = s)
           /\ (Geo.needs_geocoding (coordinates s') = true -> s' = s).
Proof.
  intros Hnd. eexists. split; [now apply validate_enabled |].
  split; [apply resolve_ids_keys |].
  intros sid s Hin.
  pose proof (@selected_iff_needs _ _ _ Hnd Hin) as Hsel.
  exists (snd (if Geo.needs_geocoding (coordinates s)
               then resolved world (sid, s) else (sid, s))).
  split.
  - unfold resolve_ids. apply in_map_iff. exists (sid, s). split; [|assumption].
    simpl. rewrite Hsel. destruct (Geo.needs_geocoding (coordinates s)).
    + rewrite (surjective_pairing (resolved world (sid, s))) at 1.
      now rewrite resolved_key.
    + reflexivity.
  - unfold resolved.
    destruct (Geo.needs_geocoding (coordinates s)) eqn:En;
      [destruct (truthy (fst (lookup world (sid, s)))
                 && truthy (snd (lookup world (sid, s)))) eqn:Et |]; simpl.
    + repeat split; try reflexivity; try discriminate.
      intros Hn. rewrite (truthy_pair_is_valid _ _ Et) in Hn. discriminate.
    + repeat split; try reflexivity; try discriminate; now destruct s.
    + repeat split; try reflexivity; try discriminate; now destruct s.
Qed.

(** C7 holds with its hypotheses met on a sample. *)
Lemma C7_witness :
  exists after,
    Geo.validate_and_geocode_stations true Sample.obelisco
      (stations_of Sample.no_coordinates)
    = (after, map (fun t => Geo.query (snd t))
                  (Geo.stations_to_geocode (stations_of Sample.no_coordinates)))
    /\ map (fun kv => coordinates (snd kv)) after
       = [mkCoordinates (Some (-34.6)%float) (Some (-58.4)%float)].
Proof.
  destruct (@C7_update_on_a_nonzero_pair_else_untouched Sample.obelisco
              (stations_of Sample.no_coordinates)) as (after & Hrun & _).
  - vm_compute. constructor; [intros [] | constructor].
  - exists after. split; [exact Hrun |].
    vm_compute in Hrun. injection Hrun as <-. reflexivity.
Defined.

(* ===================================================================== *)
(** * Further properties: dates *)
(* ===================================================================== *)

Lemma in_range_digit (lo hi : Z) (c : ascii) :
  in_range lo hi c = true -> (lo <= digit c <= hi)%Z.
Proof.
  unfold in_range, digit. rewrite andb_true_iff, !Z.leb_le. lia.
Qed.

Lemma is_digit_digit (c : ascii) : is_digit c = true -> (0 <= digit c <= 9)%Z.
Proof.
  unfold is_digit, digit. rewrite andb_true_iff, !Z.leb_le. lia.
Qed.

Lemma eqb_digit (a c : ascii) : Ascii.eqb a c = true -> digit a = digit c.
Proof. intros H. apply Ascii.eqb_eq in H. now subst. Qed.

Lemma some_pair_fst {A B : Type} (x v : A) (s r : B) :
  Some (x, s) = Some (v, r) -> x = v.
Proof. congruence. Qed.

Ltac split_tests :=
  repeat match goal with
         | H : (_ || _) = true |- _ => apply orb_true_iff in H; destruct H as [H | H]
         | H : (_ && _) = true |- _ => apply andb_true_iff in H; destruct H
         end.

Ltac to_digits :=
  repeat match goal with
         | H : in_range _ _ _ = true |- _ => apply in_range_digit in H
         | H : is_digit _ = true |- _ => apply is_digit_digit in H
         | H : Ascii.eqb _ _ = true |- _ =>
             apply eqb_digit in H; vm_compute (digit (Ascii _ _ _ _ _ _ _ _)) in H
         end.

Ltac field_range f :=
  intros s v r; destruct s as [|a [|b s]]; unfold f;
  repeat match goal with
         | |- context [if ?t then _ else _] => destruct t eqn:?
         end;
  (let H := fresh in
   intros H; first [discriminate H | apply some_pair_fst in H; rewrite <- H]);
  split_tests; to_digits; lia.

Lemma field_d_range : forall s v r, field_d s = Some (v, r) -> (1 <= v <= 31)%Z.
Proof. field_range field_d. Qed.

Lemma field_m_range : forall s v r, field_m s = Some (v, r) -> (1 <= v <= 12)%Z.
Proof. field_range field_m. Qed.

Lemma field_H_range : forall s v r, field_H s = Some (v, r) -> (0 <= v <= 23)%Z.
Proof. field_range field_H. Qed.

Lemma field_M_range : forall s v r, field_M s = Some (v, r) -> (0 <= v <= 59)%Z.
Proof. field_range field_M. Qed.

Lemma field_Y_range : forall s v r, field_Y s = Some (v, r) -> (0 <= v <= 9999)%Z.
Proof.
  intros s v r. destruct s as [|a [|b [|c [|d s]]]]; unfold field_Y; try discriminate.
  destruct (is_digit a && is_digit b && is_digit c && is_digit d) eqn:E;
    [|discriminate].
  intros H. apply some_pair_fst in H. rewrite <- H. split_tests. to_digits. lia.
Qed.

Lemma strptime_calendar (s : string) (d : datetime) : strptime s = Some d -> calendar d.
Proof.
  unfold strptime.
  destruct (field_d s) as [[dd s1]|] eqn:Ed; [|discriminate].
  destruct (lit "/" s1) as [s2|]; [|discriminate].
  destruct (field_m s2) as [[mm s3]|] eqn:Em; [|discriminate].
  destruct (lit "/" s3) as [s4|]; [|discriminate].
  destruct (field_Y s4) as [[yy s5]|] eqn:Ey; [|discriminate].
  destruct (spaces1 s5) as [s6|]; [|discriminate].
  destruct (field_H s6) as [[hh s7]|] eqn:Eh; [|discriminate].
  destruct (lit ":" s7) as [s8|]; [|discriminate].
  destruct (field_M s8) as [[mi [|c s9]]|] eqn:Emi; try discriminate.
  destruct ((1 <=? yy)%Z && (dd <=? days_in_month yy mm)%Z) eqn:Ev; [|discriminate].
  intros [= <-]. apply andb_true_iff in Ev. rewrite !Z.leb_le in Ev.
  pose proof (field_d_range _ Ed). pose proof (field_m_range _ Em).
  pose proof (field_Y_range _ Ey). pose proof (field_H_range _ Eh).
  pose proof (field_M_range _ Emi).
  unfold calendar. simpl. lia.
Qed.

Lemma parse_date_calendar (c : option string) (d : datetime) :
  parse_date c = Some d -> calendar d.
Proof. destruct c; simpl; [apply strptime_calendar | discriminate]. Qed.



Lemma code_digit_char (z : Z) : code (digit_char z) = (48 + z mod 10)%Z.
Proof.
  unfold code, digit_char.
  assert (0 <= z mod 10 < 10)%Z by (apply Z.mod_pos_bound; lia).
  rewrite N_ascii_embedding by lia. lia.
Qed.

Lemma is_digit_digit_char (z : Z) : is_digit (digit_char z) = true.
Proof.
  unfold is_digit. rewrite code_digit_char.
  assert (0 <= z mod 10 < 10)%Z by (apply Z.mod_pos_bound; lia).
  apply andb_true_iff. rewrite !Z.leb_le. lia.
Qed.

Lemma digit_digit_char (z : Z) : digit (digit_char z) = (z mod 10)%Z.
Proof. unfold digit. rewrite code_digit_char. lia. Qed.

Lemma is_space_digit_char (z : Z) : is_space (digit_char z) = false.
Proof.
  unfold is_space. rewrite code_digit_char.
  assert (0 <= z mod 10 < 10)%Z by (apply Z.mod_pos_bound; lia).
  apply orb_false_iff. split; apply andb_false_iff; rewrite !Z.leb_gt; lia.
Qed.

(** Every value of a small range, one by one. *)
Tactic Notation "each_upto" integer(n) :=
  match goal with
  | H : (_ <= ?x <= _)%Z |- _ =>
      rewrite <- (Z2Nat.id x) by lia;
      let k := fresh "k" in
      let Hk := fresh "Hk" in
      remember (Z.to_nat x) as k eqn:Hk;
      assert (Z.of_nat k = x) by lia;
      clear Hk;
      do n (destruct k as [|k]; [first [exfalso; lia | reflexivity] |]);
      destruct k; first [exfalso; lia | reflexivity]
  end.

Lemma field_d_written (v : Z) (rest : string) :
  (1 <= v <= 31)%Z -> field_d (pad2 v ++ rest) = Some (v, rest).
Proof. intros H. each_upto 31. Qed.

Lemma field_m_written (v : Z) (rest : string) :
  (1 <= v <= 12)%Z -> field_m (pad2 v ++ rest) = Some (v, rest).
Proof. intros H. each_upto 12. Qed.

Lemma field_H_written (v : Z) (rest : string) :
  (0 <= v <= 23)%Z -> field_H (pad2 v ++ rest) = Some (v, rest).
Proof. intros H. each_upto 23. Qed.

Lemma field_M_written (v : Z) (rest : string) :
  (0 <= v <= 59)%Z -> field_M (pad2 v ++ rest) = Some (v, rest).
Proof. intros H. each_upto 59. Qed.

Lemma field_Y_written (v : Z) (rest : string) :
  (0 <= v <= 9999)%Z -> field_Y (pad4 v ++ rest) = Some (v, rest).
Proof.
  intros H. unfold pad4, pad2, field_Y. cbn [append].
  rewrite !is_digit_digit_char, !digit_digit_char. cbn [andb].
  f_equal. f_equal. Z.div_mod_to_equations. lia.
Qed.

Lemma skip_spaces_pad2 (v : Z) (rest : string) :
  skip_spaces (pad2 v ++ rest) = (pad2 v ++ rest)%string.
Proof. unfold pad2. cbn [append skip_spaces]. now rewrite is_space_digit_char. Qed.

(** X2: [parse_date] accepts every date of the calendar written in the
    format its docstring names, DD/MM/YYYY HH:MM with every field
    zero-padded, and returns that date. *)
Theorem X2_parse_date_reads_the_documented_format (d : datetime) :
  (1 <= year d <= 9999)%Z -> (1 <= month d <= 12)%Z ->
  (1 <= day d <= days_in_month (year d) (month d))%Z ->
  (0 <= hour d <= 23)%Z -> (0 <= minute d <= 59)%Z ->
  parse_date (Some (written d)) = Some d.
Proof.
  intros Hy Hm Hd Hh Hmi. destruct d as [y m dd h mi]. simpl in *.
  assert (Hd31 : (1 <= dd <= 31)%Z).
  { unfold days_in_month in Hd.
    destruct (m =? 2)%Z; [destruct (is_leap y) |];
      [lia | lia | destruct ((m =? 4) || (m =? 6) || (m =? 9) || (m =? 11))%Z; lia]. }
  unfold written, strptime. cbn [year month day hour minute].
  rewrite field_d_written by assumption. cbn [append lit Ascii.eqb Bool.eqb].
  rewrite field_m_written by assumption. cbn [append lit Ascii.eqb Bool.eqb].
  rewrite field_Y_written by lia. cbn [append spaces1 is_space].
  replace (is_space " ") with true by reflexivity.
  rewrite skip_spaces_pad2, field_H_written by assumption.
  cbn [append lit Ascii.eqb Bool.eqb].
  change (field_M (pad2 mi)) with (field_M (pad2 mi ++ "")).
  rewrite field_M_written by assumption.
  replace ((1 <=? y)%Z && (dd <=? days_in_month y m)%Z) with true; [reflexivity |].
  symmetry. apply andb_true_iff. rewrite !Z.leb_le. lia.
Qed.

(** X2 applies to the 29th of February 2024, one minute before midnight. *)
Lemma X2_witness :
  written (mkdt 2024 2 29 23 59) = "29/02/2024 23:59"%string
  /\ parse_date (Some (written (mkdt 2024 2 29 23 59))) = Some (mkdt 2024 2 29 23 59).
Proof.
  split; [reflexivity |].
  apply X2_parse_date_reads_the_documented_format; vm_compute; split; discriminate.
Defined.

Lemma ascii_compare_digit_char (a b : Z) :
  Ascii.compare (digit_char a) (digit_char b) = Z.compare (a mod 10) (b mod 10).
Proof.
  unfold Ascii.compare, digit_char.
  assert (0 <= a mod 10 < 10)%Z by (apply Z.mod_pos_bound; lia).
  assert (0 <= b mod 10 < 10)%Z by (apply Z.mod_pos_bound; lia).
  rewrite !N_ascii_embedding by lia.
  rewrite Z2N.inj_compare by lia. apply Z.add_compare_mono_l.
Qed.

Lemma compare_pad2 (m n : Z) (x y : string) :
  (0 <= m < 100)%Z -> (0 <= n < 100)%Z ->
  String.compare (pad2 m ++ x) (pad2 n ++ y)
  = match Z.compare m n with
    | Eq => String.compare x y
    | c => c
    end.
Proof.
  intros Hm Hn. unfold pad2. cbn [append String.compare].
  rewrite !ascii_compare_digit_char.
  destruct (Z.compare_spec ((m / 10) mod 10) ((n / 10) mod 10)),
           (Z.compare_spec (m mod 10) (n mod 10)),
           (Z.compare_spec m n);
    try reflexivity; exfalso; Z.div_mod_to_equations; lia.
Qed.

Lemma pad4_as_pad2 (z : Z) (x : string) :
  (pad4 z ++ x = pad2 (z / 100) ++ pad2 (z mod 100) ++ x)%string.
Proof.
  unfold pad4, pad2. cbn [append].
  assert (E : forall u v, (u mod 10 = v mod 10)%Z -> digit_char u = digit_char v)
    by (intros u v E; unfold digit_char; now rewrite E).
  repeat match goal with
         | |- String _ _ = String _ _ => f_equal
         end;
    try reflexivity; apply E; Z.div_mod_to_equations; lia.
Qed.

Lemma lex_compare (X Y x y : Z) :
  (0 <= x < 100)%Z -> (0 <= y < 100)%Z ->
  Z.compare (X * 100 + x) (Y * 100 + y)
  = match Z.compare X Y with
    | Eq => Z.compare x y
    | c => c
    end.
Proof.
  intros Hx Hy.
  destruct (Z.compare_spec X Y) as [-> | H | H].
  - apply Z.add_compare_mono_l.
  - apply Z.compare_lt_iff. lia.
  - apply Z.compare_gt_iff. lia.
Qed.

(** The text [format_date] gives for a date of the calendar compares, as
    a text, the way the date compares as a date. *)
Lemma strftime_compare (a b : datetime) :
  calendar a -> calendar b ->
  String.compare (strftime a) (strftime b) = Z.compare (dt_key a) (dt_key b).
Proof.
  intros (Hya & Hma & Hda & Hha & Hia) (Hyb & Hmb & Hdb & Hhb & Hib).
  assert (day a <= 31 /\ day b <= 31)%Z as [Hda' Hdb'].
  { unfold days_in_month in *.
    split;
      repeat match goal with
             | H : context [if ?t then _ else _] |- _ => destruct t
             end; lia. }
  unfold strftime, dt_key.
  rewrite !pad4_as_pad2.
  rewrite (Z.div_mod (year a) 100) at 3 by lia.
  rewrite (Z.div_mod (year b) 100) at 3 by lia.
  rewrite !(Z.mul_comm 100).
  repeat (rewrite lex_compare by (Z.div_mod_to_equations; lia)).
  repeat (rewrite compare_pad2 by (Z.div_mod_to_equations; lia);
          cbn [append String.compare]; rewrite ?ascii_compare_refl).
  destruct (year a / 100 ?= year b / 100)%Z; try reflexivity.
  destruct (year a mod 100 ?= year b mod 100)%Z; try reflexivity.
  destruct (month a ?= month b)%Z; try reflexivity.
  destruct (day a ?= day b)%Z; try reflexivity.
  destruct (hour a ?= hour b)%Z; try reflexivity.
  destruct (minute a ?= minute b)%Z; reflexivity.
Qed.

(** X3: the text [format_date] gives for a parsed date orders as the date
    does.  For two dates that [parse_date] returned, of a year of four
    digits, the texts compare character by character exactly as the dates
    compare in time. *)
Theorem X3_format_date_text_order_is_date_order
    (c1 c2 : option string) (a b : datetime) (ta tb : string) :
  parse_date c1 = Some a -> parse_date c2 = Some b ->
  (1000 <= year a)%Z -> (1000 <= year b)%Z ->
  format_date (Stamp a) = Ok (Some ta) ->
  format_date (Stamp b) = Ok (Some tb) ->
  String.compare ta tb = Z.compare (dt_key a) (dt_key b).
Proof.
  intros Ha Hb _ _ Hta Htb.
  apply parse_date_calendar in Ha. apply parse_date_calendar in Hb.
  simpl in Hta, Htb.
  assert (ta = strftime a) by congruence. assert (tb = strftime b) by congruence.
  subst. now apply strftime_compare.
Qed.

Lemma X3_witness :
  String.compare "2023-06-02T09:00:00Z" "2023-12-01T10:00:00Z"
  = Z.compare (dt_key (mkdt 2023 6 2 9 0)) (dt_key (mkdt 2023 12 1 10 0)).
Proof.
  apply (@X3_format_date_text_order_is_date_order
           (Some "02/06/2023 09:00"%string) (Some "01/12/2023 10:00"%string)
           (mkdt 2023 6 2 9 0) (mkdt 2023 12 1 10 0));
    first [reflexivity | vm_compute; discriminate].
Defined.

(* ===================================================================== *)
(** * Further properties: the Aggregator *)
(* ===================================================================== *)


Lemma mapM_Ok_all {X Y : Type} (f : X -> result Y) (xs : list X) (ys : list Y) :
  mapM f xs = Ok ys -> forall x, In x xs -> exists y, f x = Ok y.
Proof.
  intros H x Hx. apply mapM_Ok_Forall2 in H.
  destruct (Forall2_In_l _ H Hx) as (y & _ & Hy). eauto.
Qed.









Lemma added_row_date (df : list Row) (r : DRow) (d : datetime) :
  In r (add_fecha_vigencia_dt df) -> fecha_vigencia_dt r = Stamp d ->
  In (row r) df /\ parse_date (fecha_vigencia (row r)) = Some d.
Proof.
  unfold add_fecha_vigencia_dt. intros Hr Hd. apply in_map_iff in Hr.
  destruct Hr as (r0 & <- & Hr0). simpl in *. split; [assumption |].
  unfold box in Hd. destruct (parse_date (fecha_vigencia r0)).
  - congruence.
  - destruct (held_as_datetime64 _); discriminate.
Qed.


(** The date texts of the entries of rows that come newest first come
    latest text first. *)
Lemma date_texts_sorted (rows : list DRow) :
  forall es : list PricePoint,
    mapM price_entry rows = Ok es ->
    Forall (fun r => forall d, fecha_vigencia_dt r = Stamp d -> calendar d) rows ->
    StronglySorted newer_first rows ->
    StronglySorted date_text_not_before (map date es).
Proof.
  induction rows as [|r rows IH]; intros es Hm Hcal Hs; simpl in Hm.
  - injection Hm as <-. constructor.
  - inv_bind Hm. inv_bind Hm. injection Hm as <-.
    inversion Hcal as [|? ? Hr Hrows]; subst.
    inversion Hs as [|? ? Hs' Hall]; subst.
    simpl. constructor; [now apply IH |].
    apply Forall_forall. intros t Ht. apply in_map_iff in Ht.
    destruct Ht as (e' & <- & He').
    apply mapM_Ok_Forall2 in Ha0.
    destruct (Forall2_In_r _ Ha0 He') as (r' & Hr' & Hre').
    rewrite Forall_forall in Hall, Hrows.
    specialize (Hall _ Hr'). specialize (Hrows _ Hr').
    apply price_entry_date in Ha, Hre'.
    unfold newer_first, at_least_as_recent, date_of in Hall.
    destruct (fecha_vigencia_dt r) as [d| |], (fecha_vigencia_dt r') as [d'| |];
      cbn [format_date stamp_of] in *; try discriminate; try contradiction;
      injection Ha as <-; injection Hre' as <-;
      unfold date_text_not_before; try exact I.
    rewrite strftime_compare by auto.
    intros Hgt. apply Z.compare_gt_iff in Hgt. lia.
Qed.

Section AggregatorFurther.

Variable sort_values : list DRow -> list DRow.
Hypothesis sort_ok : sorts_newest_first sort_values.

Lemma sorted_table_In (df : list Row) (r : DRow) :
  In r (sorted_table sort_values df) <-> In r (add_fecha_vigencia_dt df).
Proof.
  unfold sorted_table. split; apply Permutation_in.
  - apply sort_ok.
  - symmetry. apply sort_ok.
Qed.

(** X5: within every product of the result the [date] texts come latest
    first as texts compare, with the null dates at the end, when the years
    of the table have four digits: a consumer that sorts the price points
    of a product by their [date] text finds them already sorted. *)
Theorem X5_date_texts_latest_first
    (df : list Row) (stations : Stations)
    (sid : Z) (s : Station) (key : string) (p : Product) :
  (forall r d, In r df -> parse_date (fecha_vigencia r) = Some d -> (1000 <= year d)%Z) ->
  process_stations sort_values df = Ok stations ->
  In (sid, s) stations -> In (key, p) (products s) ->
  StronglySorted date_text_not_before (map date (prices p)).
Proof.
  intros _ H Hs Hp.
  destruct (@product_rows sort_values df stations sid s key p H Hs Hp)
    as (rows & Hm & Hrows).
  apply date_texts_sorted with (rows := rows); [assumption | |].
  - apply Forall_forall. intros r Hr d Hd. subst rows.
    apply filter_In in Hr. destruct Hr as [Hr _].
    apply filter_In in Hr. destruct Hr as [Hr _].
    apply sorted_table_In in Hr.
    destruct (added_row_date _ _ Hr Hd) as [_ Hparse].
    now apply parse_date_calendar in Hparse.
  - subst rows. do 2 apply StronglySorted_filter.
    now apply sorted_table_sorted.
Qed.

(** What makes the Aggregator return: the row each station is seeded
    from, and every row that has the keys of both groupings. *)
Lemma process_stations_Ok_iff (df : list Row) :
  (exists stations, process_stations sort_values df = Ok stations)
  <-> (forall sid r, first_of_station sid (sorted_table sort_values df) = Some r ->
                     exists s, new_station sid r = Ok s)
      /\ (forall r, In r (add_fecha_vigencia_dt df) -> keyed r = true ->
                    exists e, price_entry r = Ok e).
Proof.
  split.
  - intros (stations & H). split.
    + intros sid r Hfirst.
      pose proof (find_some _ _ Hfirst) as [Hr Hk].
      apply (@has_key_true _ Z.compare Z.compare_eq Z.compare_refl) in Hk.
      assert (Hg : In (sid, filter (fun r => has_key Z.compare sid (station_by r))
                              (sorted_table sort_values df))
                      (station_groups sort_values df)).
      { unfold station_groups, groupby. apply in_map_iff. exists sid.
        split; [reflexivity |].
        apply (@sorted_keys_In _ Z.compare Z.compare_eq), present_In.
        rewrite <- Hk. now apply in_map. }
      apply process_stations_groups in H.
      destruct (Forall2_In_l _ H Hg) as (ks & _ & Hks).
      apply station_of_group_inv in Hks.
      destruct Hks as (first_row & rest & s0 & ps & Hrows & Hs0 & _).
      simpl in Hrows, Hs0. apply filter_head_find in Hrows.
      unfold first_of_station in Hfirst.
      assert (first_row = r) by congruence. subst. eauto.
    + intros r Hr Hk.
      destruct (@keyed_rows_filed sort_values sort_ok df stations H) as (pts & Hf & _).
      assert (Hin : In r (filter keyed (add_fecha_vigencia_dt df)))
        by (apply filter_In; auto).
      destruct (Forall2_In_l _ Hf Hin) as (pt & _ & _ & _ & He). eauto.
  - intros [Hstation Hprice]. rewrite process_stations_closed.
    apply mapM_all_Ok. intros [sid rows] Hg.
    pose proof (@groupby_nonempty _ Z.compare Z.compare_eq Z.compare_refl
                  station_by _ sid rows Hg) as Hne.
    pose proof (@station_group_is_filter sort_values df sid rows Hg) as Hfilter.
    assert (Hrows : forall r, In r rows ->
                              In r (sorted_table sort_values df) /\ station_by r = Some sid)
      by (intros r Hr; now apply (@station_group_rows sort_values df sid rows r Hg)).
    unfold station_of_group. simpl.
    destruct rows as [|first_row rest]; [congruence |]. simpl.
    symmetry in Hfilter. apply filter_head_find in Hfilter.
    destruct (Hstation sid first_row Hfilter) as (s & ->). simpl.
    destruct (mapM_all_Ok product_of_group
                (groupby cmp_product product_by (first_row :: rest))) as (ps & ->);
      [|simpl; eauto].
    intros [k prows] Hpg. unfold product_of_group. simpl.
    destruct (mapM_all_Ok price_entry prows) as (es & ->); [|simpl; eauto].
    intros r Hr. apply (product_group_rows _ _ _ r Hpg) in Hr. destruct Hr as [Hr Hk].
    destruct (Hrows r Hr) as [Hin Hsid].
    apply Hprice; [now apply sorted_table_In |].
    unfold keyed. now rewrite Hsid, Hk.
Qed.

(** X6: [process_stations] returns exactly when the most recent row of
    every station gives a station (its flag id is there and neither
    coordinate is a text) and every row with a station id, a product id
    and a product name gives a price entry.  A bad cell in a row that has
    no product name, or a bad flag id or coordinate in a row that is not
    the first of its station in the sorted table, does not make it
    raise. *)
Theorem X6_process_stations_returns_iff (df : list Row) :
  (exists stations, process_stations sort_values df = Ok stations)
  <-> (forall sid r, first_of_station sid (sorted_table sort_values df) = Some r ->
                     exists s, new_station sid r = Ok s)
      /\ (forall r, In r (add_fecha_vigencia_dt df) -> keyed r = true ->
                    exists e, price_entry r = Ok e).
Proof. apply process_stations_Ok_iff. Qed.


(** The products of a station of the result. *)
Lemma station_products (df : list Row) (stations : Stations) (sid : Z) (s : Station) :
  process_stations sort_values df = Ok stations ->
  In (sid, s) stations ->
  exists rows,
    rows = filter (fun r => has_key Z.compare sid (station_by r))
                  (sorted_table sort_values df)
    /\ Forall2 (fun pg kp => product_of_group pg = Ok kp) (product_groups rows) (products s).
Proof.
  intros H Hs. apply process_stations_groups in H.
  destruct (Forall2_In_r _ H Hs) as ([sid' sg] & Hg & Hks).
  pose proof (station_of_group_key _ Hks) as Hsid. simpl in Hsid. subst sid'.
  apply station_of_group_inv in Hks.
  destruct Hks as (first_row & rest & s0 & ps & _ & _ & Hps & [= ->]).
  simpl in Hps. exists sg. split; [|assumption].
  now apply station_group_is_filter in Hg.
Qed.

Lemma product_ids_of_groups (groups : list ((Z * string) * list DRow))
    (ps : Dict.dict string Product) :
  Forall2 (fun pg kp => product_of_group pg = Ok kp) groups ps ->
  map (fun kp => (productId (snd kp), productName (snd kp))) ps = map fst groups.
Proof.
  induction 1 as [|pg kp groups ps Hkp H IH]; simpl; [reflexivity |].
  apply product_of_group_key in Hkp. destruct Hkp as (_ & Hid & Hname & _).
  rewrite Hid, Hname, IH. now destruct pg as [[i n] g].
Qed.

(** X8: the products of a station of the result are one for each pair
    of product id and product name that a row of the station has, by
    increasing product id, then by name, and each has at least one price
    point: two pairs never share a product, and no product is empty. *)
Theorem X8_products_of_a_station
    (df : list Row) (stations : Stations) (sid : Z) (s : Station) :
  process_stations sort_values df = Ok stations ->
  In (sid, s) stations ->
  StronglySorted (key_lt cmp_product)
    (map (fun p => (productId p, productName p)) (Dict.values (products s)))
  /\ (forall i n,
         In (i, n) (map (fun p => (productId p, productName p)) (Dict.values (products s)))
         <-> exists r, In r df /\ idempresa r = Some sid
                       /\ idproducto r = Some i /\ producto r = Some n)
  /\ (forall p, In p (Dict.values (products s)) -> prices p <> []).
Proof.
  intros H Hs.
  destruct (station_products _ _ _ H Hs) as (rows & Hrows & Hps).
  pose proof (product_ids_of_groups Hps) as Hids.
  unfold Dict.values. rewrite map_map, Hids.
  unfold product_groups in *. rewrite groupby_keys.
  split; [|split].
  - apply (@sorted_keys_sorted _ cmp_product cmp_product_eq
             cmp_product_antisym cmp_product_trans).
  - intros i n.
    rewrite (@sorted_keys_In _ cmp_product cmp_product_eq), present_In, in_map_iff.
    subst rows. split.
    + intros (r & Hk & Hr). apply filter_In in Hr. destruct Hr as [Hr Hsid].
      apply (@has_key_true _ Z.compare Z.compare_eq Z.compare_refl) in Hsid.
      apply sorted_table_In in Hr.
      unfold add_fecha_vigencia_dt in Hr. apply in_map_iff in Hr.
      destruct Hr as (r0 & <- & Hr0). exists r0.
      unfold station_by, product_by in *. simpl in *.
      destruct (idproducto r0), (producto r0); try discriminate.
      injection Hk as -> ->. auto.
    + intros (r0 & Hr0 & Hsid & Hi & Hn).
      exists (mkDRow r0 (box (held_as_datetime64
                                (map (fun r => parse_date (fecha_vigencia r)) df))
                             (parse_date (fecha_vigencia r0)))).
      split; [unfold product_by; simpl; now rewrite Hi, Hn |].
      apply filter_In. split.
      * apply sorted_table_In. unfold add_fecha_vigencia_dt.
        apply in_map_iff. exists r0. auto.
      * now apply (@has_key_true _ Z.compare Z.compare_eq Z.compare_refl).
  - intros p Hp. apply in_map_iff in Hp. destruct Hp as ([key p'] & Hp' & Hp).
    simpl in Hp'. subst p'.
    destruct (Forall2_In_r _ Hps Hp) as ([k g] & Hpg & Hkp).
    pose proof (@groupby_nonempty _ cmp_product cmp_product_eq cmp_product_refl
                  product_by _ k g Hpg) as Hne.
    apply product_of_group_key in Hkp. simpl in Hkp.
    destruct Hkp as (_ & _ & _ & Hes).
    apply mapM_length in Hes. intros Hnil. rewrite Hnil in Hes.
    destruct g; [congruence | discriminate].
Qed.

(** X9: a table in which no row has a station id, the empty table among
    them, gives the empty mapping. *)
Theorem X9_no_station_id_no_station (df : list Row) :
  (forall r, In r df -> idempresa r = None) ->
  process_stations sort_values df = Ok [].
Proof.
  intros Hnone. rewrite process_stations_closed.
  assert (E : groupby Z.compare station_by (sorted_table sort_values df) = []).
  { unfold groupby.
    assert (P : present (map station_by (sorted_table sort_values df)) = []).
    { assert (Hall : forall r, In r (sorted_table sort_values df) -> station_by r = None).
      { intros r Hr. apply sorted_table_In in Hr.
        unfold add_fecha_vigencia_dt in Hr. apply in_map_iff in Hr.
        destruct Hr as (r0 & <- & Hr0). now apply Hnone. }
      induction (sorted_table sort_values df) as [|r l IH]; [reflexivity |].
      simpl. rewrite (Hall r (or_introl eq_refl)). apply IH.
      intros r' Hr'. apply Hall. now right. }
    now rewrite P. }
  now rewrite E.
Qed.

End AggregatorFurther.

Lemma X5_witness :
  process_stations sort_values_stable Sample.two_dates
  = Ok (stations_of Sample.two_dates)
  /\ forall sid s key p,
       In (sid, s) (stations_of Sample.two_dates) -> In (key, p) (products s) ->
       StronglySorted date_text_not_before (map date (prices p)).
Proof.
  assert (H : process_stations sort_values_stable Sample.two_dates
              = Ok (stations_of Sample.two_dates)) by (vm_compute; reflexivity).
  split; [exact H |].
  intros sid s key p.
  apply (@X5_date_texts_latest_first sort_values_stable sort_values_stable_ok
           Sample.two_dates (stations_of Sample.two_dates) sid s key p); [|exact H].
  intros r d [<- | [<- | []]]; vm_compute; intros [= <-]; discriminate.
Defined.

Lemma X6_witness :
  (exists stations, process_stations sort_values_stable Sample.two_dates = Ok stations)
  <-> (forall sid r,
          first_of_station sid (sorted_table sort_values_stable Sample.two_dates) = Some r ->
          exists s, new_station sid r = Ok s)
      /\ (forall r, In r (add_fecha_vigencia_dt Sample.two_dates) -> keyed r = true ->
                    exists e, price_entry r = Ok e).
Proof.
  exact (@X6_process_stations_returns_iff sort_values_stable sort_values_stable_ok
           Sample.two_dates).
Defined.


Lemma X8_witness :
  process_stations sort_values_stable Sample.two_dates
  = Ok (stations_of Sample.two_dates)
  /\ forall sid s p,
       In (sid, s) (stations_of Sample.two_dates) ->
       In p (Dict.values (products s)) -> prices p <> [].
Proof.
  assert (H : process_stations sort_values_stable Sample.two_dates
              = Ok (stations_of Sample.two_dates)) by (vm_compute; reflexivity).
  split; [exact H |].
  intros sid s p Hs.
  exact (proj2 (proj2 (@X8_products_of_a_station sort_values_stable
                         sort_values_stable_ok
                         Sample.two_dates (stations_of Sample.two_dates) sid s H Hs)) p).
Defined.

Lemma X9_witness :
  process_stations sort_values_stable
    [Sample.obs None Sample.here_lat Sample.here_lng (Some "Nafta"%string)
                (Num 100%float) (Some "01/06/2023 10:00"%string)]
  = Ok [].
Proof.
  apply (@X9_no_station_id_no_station sort_values_stable sort_values_stable_ok).
  intros r [<- | []]. reflexivity.
Defined.

Section StationsFurther.

Variable sort_values : list DRow -> list DRow.
Hypothesis sort_ok : sorts_newest_first sort_values.

(** X10: a station of the result has no product exactly when no row of
    the table with its id has both a product id and a product name; such a
    station is kept, with an empty product list. *)
Theorem X10_station_without_products
    (df : list Row) (stations : Stations) (sid : Z) (s : Station) :
  process_stations sort_values df = Ok stations ->
  In (sid, s) stations ->
  (products s = [] <->
   forall r, In r df -> idempresa r = Some sid -> keyed_row r = false).
Proof.
  intros H Hs.
  destruct (@station_products sort_values df stations sid s H Hs) as (rows & Hrows & Hps).
  assert (Hin : forall r, In r rows <->
                          In r (add_fecha_vigencia_dt df) /\ station_by r = Some sid).
  { intros r. subst rows. rewrite filter_In.
    rewrite (@has_key_true _ Z.compare Z.compare_eq Z.compare_refl).
    now rewrite (sorted_table_In sort_ok). }
  split.
  - intros Hnil r0 Hr0 Hsid.
    destruct (keyed_row r0) eqn:Hk; [exfalso | reflexivity].
    rewrite Hnil in Hps. inversion Hps as [Hg|]. symmetry in Hg.
    unfold product_groups, groupby in Hg. apply map_eq_nil in Hg.
    set (r := mkDRow r0 (box (held_as_datetime64
                                (map (fun r => parse_date (fecha_vigencia r)) df))
                             (parse_date (fecha_vigencia r0)))).
    assert (Hr : In r rows).
    { apply Hin. split; [|exact Hsid].
      unfold add_fecha_vigencia_dt. apply in_map_iff. exists r0. auto. }
    unfold keyed_row in Hk. rewrite !andb_true_iff in Hk.
    destruct Hk as [[_ Hi] Hn].
    destruct (idproducto r0) as [i|] eqn:Ei; [|discriminate].
    destruct (producto r0) as [n|] eqn:En; [|discriminate].
    assert (Hk : In (i, n) (sorted_keys cmp_product (present (map product_by rows)))).
    { apply (@sorted_keys_In _ cmp_product cmp_product_eq), present_In.
      apply in_map_iff. exists r. split; [|assumption].
      unfold product_by, r. simpl. now rewrite Ei, En. }
    rewrite Hg in Hk. contradiction.
  - intros Hnone. destruct (products s) as [|[key p] ps] eqn:E; [reflexivity |].
    exfalso.
    destruct (Forall2_In_r _ Hps (or_introl eq_refl)) as ([k g] & Hpg & _).
    apply (@groupby_In _ cmp_product cmp_product_eq) in Hpg.
    destruct Hpg as [_ Hk]. apply in_map_iff in Hk.
    destruct Hk as (r & Hk & Hr). apply Hin in Hr. destruct Hr as [Hr Hsid].
    unfold add_fecha_vigencia_dt in Hr. apply in_map_iff in Hr.
    destruct Hr as (r0 & <- & Hr0).
    specialize (Hnone r0 Hr0 Hsid).
    unfold keyed_row in Hnone. unfold station_by in Hsid. unfold product_by in Hk.
    simpl in Hsid, Hk. rewrite Hsid in Hnone.
    destruct (idproducto r0), (producto r0); discriminate.
Qed.

End StationsFurther.

Lemma X10_witness :
  process_stations sort_values_stable Sample.no_product_name
  = Ok (stations_of Sample.no_product_name)
  /\ exists s,
       stations_of Sample.no_product_name = [(7%Z, s)] /\ products s = [].
Proof.
  assert (H : process_stations sort_values_stable Sample.no_product_name
              = Ok (stations_of Sample.no_product_name)) by (vm_compute; reflexivity).
  split; [exact H |].
  eexists. split; [reflexivity |].
  apply (proj2 (@X10_station_without_products sort_values_stable sort_values_stable_ok
                  Sample.no_product_name (stations_of Sample.no_product_name) 7%Z _
                  H (or_introl eq_refl))).
  intros r [<- | []] _. reflexivity.
Defined.

Section DatesOfTheResult.

Variable sort_values : list DRow -> list DRow.
Hypothesis sort_ok : sorts_newest_first sort_values.


End DatesOfTheResult.


(* ===================================================================== *)
(** * Further properties: the Resolver *)
(* ===================================================================== *)

Lemma validate_as_after_pass (world : Z -> Geo.session) (stations : Stations) :
  NoDup (Dict.keys stations) ->
  Geo.validate_and_geocode_stations true world stations
  = (map (after_pass world) stations,
     map (fun t => Geo.query (snd t)) (Geo.stations_to_geocode stations)).
Proof.
  intros Hnd. rewrite validate_enabled by assumption. f_equal.
  unfold resolve_ids. apply map_ext_in. intros [sid s] Hin. simpl.
  rewrite (@selected_iff_needs stations sid s Hnd Hin). reflexivity.
Qed.

Lemma after_pass_key (world : Z -> Geo.session) (kv : Z * Station) :
  fst (after_pass world kv) = fst kv.
Proof.
  unfold after_pass. destruct (Geo.needs_geocoding _); [apply resolved_key | reflexivity].
Qed.

Lemma after_pass_keys (world : Z -> Geo.session) (stations : Stations) :
  Dict.keys (map (after_pass world) stations) = Dict.keys stations.
Proof.
  unfold Dict.keys. rewrite map_map. apply map_ext. intros kv. apply after_pass_key.
Qed.

(** A pass changes nothing of a station but its coordinates. *)
Lemma after_pass_station (world : Z -> Geo.session) (kv : Z * Station) :
  snd (after_pass world kv)
  = with_coordinates (snd kv) (coordinates (snd (after_pass world kv))).
Proof.
  unfold after_pass, resolved.
  destruct (Geo.needs_geocoding _); [destruct (_ && _) |];
    simpl; try reflexivity; now destruct (snd kv).
Qed.

Lemma after_pass_settled (world : Z -> Geo.session) (kv : Z * Station) :
  Geo.needs_geocoding (coordinates (snd (after_pass world kv))) = true ->
  after_pass world kv = kv /\ Geo.needs_geocoding (coordinates (snd kv)) = true.
Proof.
  unfold after_pass.
  destruct (Geo.needs_geocoding (coordinates (snd kv))) eqn:N; [|congruence].
  unfold resolved.
  destruct (truthy (fst (lookup world kv)) && truthy (snd (lookup world kv))) eqn:T.
  - simpl. rewrite truthy_pair_is_valid by exact T. discriminate.
  - auto.
Qed.

Lemma after_pass_idempotent (world : Z -> Geo.session) (kv : Z * Station) :
  after_pass world (after_pass world kv) = after_pass world kv.
Proof.
  unfold after_pass at 1.
  destruct (Geo.needs_geocoding (coordinates (snd (after_pass world kv)))) eqn:N;
    [|reflexivity].
  apply after_pass_settled in N. destruct N as [E N]. rewrite E.
  unfold after_pass in E. now rewrite N in E.
Qed.

(** X12: the Resolver is idempotent.  A second pass over the mapping that
    a pass returned, with a service that answers as before, leaves every
    station as it is; it asks again only for stations the first pass asked
    for, namely those it left without a valid pair. *)
Theorem X12_second_pass_changes_nothing
    (world : Z -> Geo.session) (stations after : Stations) (log : list string) :
  NoDup (Dict.keys stations) ->
  Geo.validate_and_geocode_stations true world stations = (after, log) ->
  exists log',
    Geo.validate_and_geocode_stations true world after = (after, log')
    /\ incl (Geo.stations_to_geocode after) (Geo.stations_to_geocode stations)
    /\ incl log' log.
Proof.
  intros Hnd H. rewrite validate_as_after_pass in H by assumption.
  injection H as <- <-.
  assert (Hincl : incl (Geo.stations_to_geocode (map (after_pass world) stations))
                       (Geo.stations_to_geocode stations)).
  { intros kv' Hkv'. unfold Geo.stations_to_geocode in *.
    apply filter_In in Hkv'. destruct Hkv' as [Hin N].
    apply in_map_iff in Hin. destruct Hin as (kv & <- & Hin).
    apply after_pass_settled in N. destruct N as [-> N].
    apply filter_In. auto. }
  eexists. split; [|split; [exact Hincl |]].
  - rewrite validate_as_after_pass by (now rewrite after_pass_keys).
    f_equal. rewrite map_map. apply map_ext. apply after_pass_idempotent.
  - now apply incl_map.
Qed.

Lemma X12_witness :
  exists log',
    Geo.validate_and_geocode_stations true Sample.equator
      (stations_of Sample.no_coordinates)
    = (stations_of Sample.no_coordinates, log')
    /\ incl log' ["Av. Rivadavia 100, CABA, BUENOS AIRES, Argentina"%string].
Proof.
  assert (Hnd : NoDup (Dict.keys (stations_of Sample.no_coordinates)))
    by (vm_compute; repeat constructor; simpl; tauto).
  assert (H : Geo.validate_and_geocode_stations true Sample.equator
                (stations_of Sample.no_coordinates)
              = (stations_of Sample.no_coordinates,
                 ["Av. Rivadavia 100, CABA, BUENOS AIRES, Argentina"%string]))
    by (vm_compute; reflexivity).
  destruct (@X12_second_pass_changes_nothing Sample.equator _ _ _ Hnd H)
    as (log' & H2 & _ & Hlog).
  exists log'. split; assumption.
Defined.

(** X13: the order in which the lookups complete does not show in the
    result.  Whatever order [as_completed] hands the tasks back in, the
    mapping is the same, and the same requests were sent. *)
Theorem X13_completion_order_does_not_matter
    (world : Z -> Geo.session) (stations : Stations) (order : list (Z * Station)) :
  NoDup (Dict.keys stations) ->
  Permutation order (Geo.stations_to_geocode stations) ->
  fst (Geo.run_tasks true world stations order)
  = fst (Geo.validate_and_geocode_stations true world stations)
  /\ Permutation (snd (Geo.run_tasks true world stations order))
                 (snd (Geo.validate_and_geocode_stations true world stations)).
Proof.
  intros Hnd Hp. rewrite validate_enabled by assumption. unfold Geo.run_tasks.
  rewrite run_tasks_any_order.
  - simpl. split.
    + apply resolve_ids_perm. now apply Permutation_map.
    + now apply Permutation_map.
  - assumption.
  - eapply Permutation_NoDup; [|exact (@tasks_have_distinct_ids _ Hnd)].
    apply Permutation_map. now symmetry.
  - intros t Ht. apply tasks_are_stations. eapply Permutation_in; eauto.
Qed.

Lemma X13_witness :
  fst (Geo.run_tasks true Sample.obelisco
         [(1%Z, mkStation 1 None (Some "Mitre 1"%string) None None None 2
                  (mkCoordinates None None) []);
          (2%Z, mkStation 2 None (Some "Mitre 2"%string) None None None 2
                  (mkCoordinates None None) [])]
         [(2%Z, mkStation 2 None (Some "Mitre 2"%string) None None None 2
                  (mkCoordinates None None) []);
          (1%Z, mkStation 1 None (Some "Mitre 1"%string) None None None 2
                  (mkCoordinates None None) [])])
  = fst (Geo.validate_and_geocode_stations true Sample.obelisco
           [(1%Z, mkStation 1 None (Some "Mitre 1"%string) None None None 2
                    (mkCoordinates None None) []);
            (2%Z, mkStation 2 None (Some "Mitre 2"%string) None None None 2
                    (mkCoordinates None None) [])]).
Proof.
  apply X13_completion_order_does_not_matter.
  - vm_compute. repeat constructor; simpl; intuition discriminate.
  - vm_compute. apply perm_swap.
Defined.

(** X14: a station that has no address, town or province is looked up all
    the same: the texts are interpolated as [nan], the address handed to
    [geocode_address_async] is never empty, and the task sends one
    request, for [nan, nan, nan, Argentina]. *)
Theorem X14_station_without_address_is_looked_up
    (world : Z -> Geo.session) (st : Stations * list string) (sid : Z) (s : Station) :
  address s = None -> town s = None -> province s = None ->
  snd (Geo.geocode_and_update true world st (sid, s))
  = (snd st ++ ["nan, nan, nan, Argentina"%string])%list.
Proof.
  intros Ha Ht Hp. unfold Geo.geocode_and_update.
  pose proof (one_request world (sid, s)) as Hone. simpl in Hone.
  destruct (Geo.geocode_address_async true (world sid) (Geo.AddrStr (Geo.query s)))
    as [[la lo] sent].
  simpl in Hone. subst sent.
  unfold Geo.query. rewrite Ha, Ht, Hp.
  destruct (truthy la && truthy lo); reflexivity.
Qed.

Lemma X14_witness :
  snd (Geo.geocode_and_update true Sample.failing ([], [])
         (7%Z, mkStation 7 None None None None None 2 (mkCoordinates None None) []))
  = ["nan, nan, nan, Argentina"%string].
Proof.
  apply (@X14_station_without_address_is_looked_up Sample.failing ([], []) 7%Z
           (mkStation 7 None None None None None 2 (mkCoordinates None None) []));
    reflexivity.
Defined.

(* ===================================================================== *)
(** * Further properties: the Formatter and [main] *)
(* ===================================================================== *)

Lemma eq_zero_or_zero (x : option float) : eq_zero (or_zero x) = negb (truthy x).
Proof.
  unfold or_zero, truthy. destruct x as [v|]; [|reflexivity].
  destruct (eq_zero v) eqn:E; simpl; [reflexivity | assumption].
Qed.

(** X15: the entry of a station has a zero on an axis exactly when the
    Resolver takes the station's coordinates for missing or invalid: the
    stations at longitude or latitude 0.0 in the output are those that a
    pass of the Resolver would look up. *)
Theorem X15_zero_axis_marks_the_stations_to_geocode (s : Station) :
  exists x y,
    Out.coordinates (Out.geometry (station_entry s)) = [x; y]
    /\ (Geo.needs_geocoding (coordinates s) = true
        <-> eq_zero x = true \/ eq_zero y = true).
Proof.
  eexists. eexists. split; [reflexivity |].
  rewrite !eq_zero_or_zero. unfold Geo.needs_geocoding, truthy.
  destruct (lat (coordinates s)) as [la|], (lng (coordinates s)) as [lo|]; simpl;
    rewrite ?negb_involutive, ?orb_true_iff; tauto.
Qed.

Lemma count_output (stations : Stations) :
  count_output_prices (format_output stations) = count_prices stations.
Proof.
  unfold count_output_prices, count_prices, Dict.values.
  rewrite format_output_map, !map_map. reflexivity.
Qed.

Lemma count_by_products (output output' : list Out.Entry) :
  map Out.products output = map Out.products output' ->
  count_output_prices output = count_output_prices output'.
Proof.
  unfold count_output_prices. intros E.
  rewrite <- !(map_map Out.products
                 (fun ps => list_sum (map (fun p => List.length (prices p)) ps))).
  now rewrite E.
Qed.

(** The entries after a pass differ from those before in the geometry
    only. *)
Lemma output_after_pass (world : Z -> Geo.session) (stations : Stations) :
  map Out.stationId (format_output (map (after_pass world) stations))
  = map Out.stationId (format_output stations)
  /\ map Out.products (format_output (map (after_pass world) stations))
     = map Out.products (format_output stations).
Proof.
  rewrite !format_output_map, !map_map.
  split; apply map_ext; intros kv; simpl; rewrite after_pass_station; reflexivity.
Qed.

Section MainFurther.

Variable sort_values : list DRow -> list DRow.
Hypothesis sort_ok : sorts_newest_first sort_values.

(** The mapping [main] hands to the Formatter. *)
Lemma main_closed (api_key : option string) (world : Z -> Geo.session)
    (df : list Row) (stations : Stations) :
  process_stations sort_values df = Ok stations ->
  main sort_values api_key world df
  = Ok (if Geo.GEOCODING_ENABLED api_key
        then (format_output (map (after_pass world) stations),
              map (fun t => Geo.query (snd t)) (Geo.stations_to_geocode stations))
        else (format_output stations, [])).
Proof.
  intros H. unfold main. rewrite H. simpl.
  destruct (Geo.GEOCODING_ENABLED api_key); [|reflexivity].
  rewrite validate_as_after_pass; [reflexivity |].
  apply (@key_sorted_NoDup _ Z.compare Z.compare_refl).
  exact (@station_keys_sorted sort_values df stations H).
Qed.

(** X16: what [main] writes, whatever the credential and whatever the
    service answers.  It raises exactly when the Aggregator does; when it
    returns, the entries are those of the Aggregator's stations, in its
    order, with its products, one price point for each row that has a
    station id, a product id and a product name: the lookups touch the
    geometry only.  One request is sent for each station the Aggregator
    left without valid coordinates when a credential is set, none
    otherwise. *)
Theorem X16_main_prices_do_not_depend_on_the_lookups
    (api_key : option string) (world : Z -> Geo.session) (df : list Row) :
  (forall e, main sort_values api_key world df = Raise e
             <-> process_stations sort_values df = Raise e)
  /\ forall output log,
       main sort_values api_key world df = Ok (output, log) ->
       exists stations,
         process_stations sort_values df = Ok stations
         /\ map Out.stationId output = Dict.keys stations
         /\ map Out.products output
            = map (fun kv => Dict.values (products (snd kv))) stations
         /\ count_output_prices output = List.length (filter keyed_row df)
         /\ List.length log
            = (if Geo.GEOCODING_ENABLED api_key
               then List.length (Geo.stations_to_geocode stations)
               else 0).
Proof.
  split.
  - intros e. destruct (process_stations sort_values df) as [stations|e0] eqn:H.
    + rewrite (main_closed api_key world df H). split; discriminate.
    + unfold main. rewrite H. simpl. split; intros [= <-]; reflexivity.
  - intros output log Hmain.
    destruct (process_stations sort_values df) as [stations|e0] eqn:H.
    2: { unfold main in Hmain. rewrite H in Hmain. discriminate. }
    rewrite (main_closed api_key world df H) in Hmain.
    exists stations. split; [reflexivity |].
    assert (Hcount : count_output_prices (format_output stations)
                     = List.length (filter keyed_row df)).
    { destruct (@keyed_rows_filed sort_values sort_ok df stations H)
        as (pts & Hfiled & Hperm).
      rewrite count_output, count_prices_filed, <- (Permutation_length Hperm).
      rewrite <- (Forall2_length Hfiled). apply keyed_rows_length. }
    pose proof (@output_ids sort_values df stations H) as Hids.
    assert (Hprods : map Out.products (format_output stations)
                     = map (fun kv => Dict.values (products (snd kv))) stations)
      by (rewrite format_output_map, map_map; reflexivity).
    destruct (output_after_pass world stations) as [Ei Ep].
    destruct (Geo.GEOCODING_ENABLED api_key); injection Hmain as <- <-.
    + rewrite Ei, Ep, (count_by_products _ _ Ep), length_map. auto.
    + auto.
Qed.

End MainFurther.

Lemma X16_witness :
  exists output log,
    main sort_values_stable (Some "key"%string) Sample.obelisco Sample.no_coordinates
    = Ok (output, log)
    /\ map Out.stationId output = [7%Z]
    /\ count_output_prices output = List.length (filter keyed_row Sample.no_coordinates)
    /\ List.length log = 1.
Proof.
  destruct (main sort_values_stable (Some "key"%string) Sample.obelisco
              Sample.no_coordinates) as [[output log]|e] eqn:Hmain;
    [|vm_compute in Hmain; discriminate].
  exists output, log. split; [reflexivity |].
  destruct (proj2 (@X16_main_prices_do_not_depend_on_the_lookups
                     sort_values_stable sort_values_stable_ok
                     (Some "key"%string) Sample.obelisco Sample.no_coordinates)
              output log Hmain)
    as (stations & Hst & Hids & _ & Hcount & Hlog).
  vm_compute in Hst. injection Hst as <-.
  split; [exact Hids |]. split; [exact Hcount | exact Hlog].
Defined.
